(** * miglint: the filename classifier and the rule engine of [lint.Lint]

    A shallow embedding of [internal/lint] (the three regular expressions,
    [finalExtension], [extMatches], [isCandidate], [joinPaths] and the body
    of [Lint]) together with the properties of the specification that the
    code settles.

    Filenames are Go strings, i.e. byte sequences; they are modelled by
    [string] (one [ascii] per byte).  Every literal of the three patterns
    is an ASCII byte, so every capture boundary sits next to an ASCII byte
    or at an end of the text, and matching byte by byte yields the same
    submatches as matching rune by rune. *)

From Stdlib Require Import Ascii String ZArith.
From stdpp Require Import base list gmap strings sorting pretty.

#[local] Set Warnings "-clear-no-such-hyp".

Local Open Scope Z_scope.

(** ** Byte strings *)

Module Str.

Fixpoint forallb (p : ascii → bool) (s : string) : bool :=
  match s with
  | EmptyString => true
  | String a t => p a && forallb p t
  end.

(** [s[:n]] *)
Fixpoint take (n : nat) (s : string) : string :=
  match n, s with
  | S k, String a t => String a (take k t)
  | _, _ => EmptyString
  end.

(** [strings.Contains(s, string(c))] for a one-byte needle *)
Fixpoint containsByte (c : ascii) (s : string) : bool :=
  match s with
  | EmptyString => false
  | String a t => Ascii.eqb a c || containsByte c t
  end.

(** [strings.Join(l, sep)] *)
Fixpoint join (sep : string) (l : list string) : string :=
  match l with
  | [] => ""
  | [x] => x
  | x :: t => x +:+ sep +:+ join sep t
  end.

Definition isEmpty (s : string) : bool :=
  match s with EmptyString => true | _ => false end.

End Str.

(** ** The fragment of Go's [regexp] used by the three patterns

    Go's [regexp] returns the match that a backtracking search finds first
    (leftmost-first).  [exec] enumerates, in that search order, every way a
    pattern can match at the current position: an alternative tries its
    left branch first, and the greedy repetitions try one more iteration
    before they try to stop. *)

Module Regexp.

Inductive Regexp : Type :=
| EmptyMatch
| Literal (c : ascii)
| CharClass (lo hi : ascii)
| AnyCharNotNL
| BeginText
| EndText
| Capture (i : nat) (r : Regexp)
| Star (r : Regexp)
| Plus (r : Regexp)
| Quest (r : Regexp)
| Concat (r1 r2 : Regexp)
| Alternate (r1 r2 : Regexp).

(** The text still to be read, and the submatches recorded so far. *)
Definition thread : Type := string * list (option string).

Definition inClass (lo hi a : ascii) : bool :=
  Ascii.leb lo a && Ascii.leb a hi.

Definition notNL (a : ascii) : bool := negb (Ascii.eqb a "010").

Definition step1 (p : ascii → bool) (t : thread) : list thread :=
  match t.1 with
  | String a rest => if p a then [(rest, t.2)] else []
  | EmptyString => []
  end.

(** Greedy iteration of [body]: one more iteration first, then stop.  An
    iteration that reads nothing is dropped, so [fuel] above the length of
    the remaining text never runs out. *)
Fixpoint loop (body : thread → list thread) (fuel : nat) (t : thread)
  : list thread :=
  match fuel with
  | O => [t]
  | S fuel' =>
      (body t ≫= λ t',
         if decide (String.length t'.1 < String.length t.1)%nat
         then loop body fuel' t' else [])
      ++ [t]
  end.

Fixpoint exec (input : string) (r : Regexp) (t : thread) : list thread :=
  match r with
  | EmptyMatch => [t]
  | Literal c => step1 (Ascii.eqb c) t
  | CharClass lo hi => step1 (inClass lo hi) t
  | AnyCharNotNL => step1 notNL t
  | BeginText =>
      if decide (String.length t.1 = String.length input) then [t] else []
  | EndText => if Str.isEmpty t.1 then [t] else []
  | Capture i r' =>
      (λ t', (t'.1,
              <[i := Some (Str.take (String.length t.1 - String.length t'.1) t.1)]>
                t'.2)) <$> exec input r' t
  | Star r' => loop (exec input r') (S (String.length t.1)) t
  | Plus r' => exec input r' t ≫= λ t', loop (exec input r') (S (String.length t'.1)) t'
  | Quest r' => exec input r' t ++ [t]
  | Concat r1 r2 => exec input r1 t ≫= exec input r2
  | Alternate r1 r2 => exec input r1 t ++ exec input r2 t
  end.

Fixpoint numSubexp (r : Regexp) : nat :=
  match r with
  | Capture i r' => Nat.max i (numSubexp r')
  | Star r' | Plus r' | Quest r' => numSubexp r'
  | Concat r1 r2 | Alternate r1 r2 => Nat.max (numSubexp r1) (numSubexp r2)
  | _ => O
  end.

(** The leftmost start position at which the pattern matches, and there
    the first match of the search. *)
Fixpoint searchFrom (input : string) (r : Regexp) (rest : string)
  : option (list (option string)) :=
  match head (exec input r (rest, replicate (S (numSubexp r)) None)) with
  | Some t' =>
      Some (<[O := Some (Str.take (String.length rest - String.length t'.1) rest)]> t'.2)
  | None =>
      match rest with
      | String _ rest' => searchFrom input r rest'
      | EmptyString => None
      end
  end.

(** Go's [FindStringSubmatch]: [None] is Go's nil slice; a group that
    did not take part in the match is the empty string. *)
Definition FindStringSubmatch (r : Regexp) (s : string) : option (list string) :=
  match searchFrom s r s with
  | Some caps => Some (default "" <$> caps)
  | None => None
  end.

(** Go's [MatchString] *)
Definition MatchString (r : Regexp) (s : string) : bool :=
  match searchFrom s r s with Some _ => true | None => false end.

Fixpoint Lits (s : string) : Regexp :=
  match s with
  | EmptyString => EmptyMatch
  | String a EmptyString => Literal a
  | String a t => Concat (Literal a) (Lits t)
  end.

End Regexp.

Import Regexp.

Definition digits1 : Regexp := Plus (CharClass "0" "9").
Definition upOrDown : Regexp := Alternate (Lits "up") (Lits "down").

(** [^([0-9]+)_(.+)\.(up|down)\.(.+)$] *)
Definition migratePattern : Regexp :=
  Concat BeginText
    (Concat (Capture 1 digits1)
       (Concat (Literal "_")
          (Concat (Capture 2 (Plus AnyCharNotNL))
             (Concat (Literal ".")
                (Concat (Capture 3 upOrDown)
                   (Concat (Literal ".")
                      (Concat (Capture 4 (Plus AnyCharNotNL)) EndText))))))).

(** [^[0-9]+_.+\.(up|down)\..+] *)
Definition migrationLikeRe : Regexp :=
  Concat BeginText
    (Concat digits1
       (Concat (Literal "_")
          (Concat (Plus AnyCharNotNL)
             (Concat (Literal ".")
                (Concat (Capture 1 upOrDown)
                   (Concat (Literal ".") (Plus AnyCharNotNL))))))).

(** [^([0-9]+)_(.+)\.(up|down)(?:\.(G))?$], where the fourth group [G]
    is a greedy run of zero or more [.] *)
Definition migrationPrefixRe : Regexp :=
  Concat BeginText
    (Concat (Capture 1 digits1)
       (Concat (Literal "_")
          (Concat (Capture 2 (Plus AnyCharNotNL))
             (Concat (Literal ".")
                (Concat (Capture 3 upOrDown)
                   (Concat (Quest (Concat (Literal ".") (Capture 4 (Star AnyCharNotNL))))
                      EndText)))))).

(** ** [strconv.ParseInt(s, 10, 64)] *)

Module strconv.

Inductive NumError : Type :=
| ErrSyntax (num : string)
| ErrRange (num : string).

Global Instance NumError_eq_dec : EqDecision NumError.
Proof. solve_decision. Defined.

Definition isDigit (a : ascii) : bool := inClass "0" "9" a.

Definition digitVal (a : ascii) : Z := Z.of_N (N_of_ascii a) - 48.

(** The digits read so far are worth [acc]; [None] is a byte that is not a
    decimal digit. *)
Fixpoint readDigits (acc : Z) (s : string) : option Z :=
  match s with
  | EmptyString => Some acc
  | String a t =>
      if isDigit a then readDigits (acc * 10 + digitVal a) t else None
  end.

Definition ParseInt (s : string) : NumError + Z :=
  match s with
  | EmptyString => inl (ErrSyntax s)
  | String a t =>
      let neg := Ascii.eqb a "-" in
      let body := if Ascii.eqb a "+" || neg then t else s in
      match body with
      | EmptyString => inl (ErrSyntax s)
      | _ =>
          match readDigits 0 body with
          | None => inl (ErrSyntax s)
          | Some un =>
              if negb neg && (2 ^ 63 <=? un) then inl (ErrRange s)
              else if neg && (2 ^ 63 <? un) then inl (ErrRange s)
              else inr (if neg then - un else un)
          end
      end
  end.

End strconv.

(** ** Data model *)

Record Config : Type := {
  Path : string;
  Ext : string;
  EnforceExt : bool;
  NoGaps : bool;
  Digits : Z;
  RequireDown : bool;
  StrictNameMatch : bool;
  StrictPattern : bool
}.

Record Migration : Type := {
  MPath : string;
  FileName : string;
  VersionStr : string;
  Version : Z;
  NamePart : string;
  Direction : string;
  ExtPart : string;
  FinalExt : string
}.

Record VersionGroup : Type := {
  Up : list Migration;
  Down : list Migration
}.

(** What [os.Stat] says of the target of a symbolic link. *)
Inductive StatResult : Type :=
| StatFails (err : string)
| StatMode (regular : bool).

(** The type bits of a directory entry. *)
Inductive FileType : Type :=
| TRegular
| TDir
| TSymlink (target : StatResult)
| TOther.

Record DirEntry : Type := {
  Name : string;
  Type_ : FileType
}.

(** What [ensureDir] and [os.ReadDir] find at [cfg.Path]. *)
Inductive Directory : Type :=
| NotExist
| StatFailed (err : string)
| NotADirectory
| ReadFailed (err : string)
| Listing (entries : list DirEntry).

Inductive FatalError : Type :=
| PathDoesNotExist (dir : string)
| FailedToStatPath (err : string)
| PathIsNotADirectory (dir : string)
| FailedToReadPath (err : string).

(** One constructor per [fmt.Sprintf] that [Lint] appends to [lintErrors],
    carrying the arguments of the call. *)
Inductive Violation : Type :=
| StatSymlinkFailed (path err : string)
| ExtMismatch (path expected finalExt extPart : string)
| UnmatchedFile (path : string)
| VersionParseError (path : string) (err : strconv.NumError)
| DigitsMismatch (path : string) (len expected : Z)
| DuplicateUp (version : Z) (paths : string)
| DuplicateDown (version : Z) (paths : string)
| MissingDown (version : Z)
| MissingUp (version : Z)
| NameExtMismatch (version : Z) (up down : string)
| MissingVersion (missing prev cur : Z)
| MissingVersions (missingStart missingEnd prev cur : Z).

Global Instance Violation_eq_dec : EqDecision Violation.
Proof. solve_decision. Defined.

(** ** Helpers of [Lint] *)

(** [strings.LastIndexByte] *)
Fixpoint LastIndexByte (s : string) (c : ascii) : Z :=
  match s with
  | EmptyString => -1
  | String a t =>
      let r := LastIndexByte t c in
      if r =? -1 then (if Ascii.eqb a c then 0 else -1) else r + 1
  end.

(** [s[n:]] *)
Fixpoint sliceFrom (n : nat) (s : string) : string :=
  match n, s with
  | S k, String _ t => sliceFrom k t
  | _, _ => s
  end.

Definition len (s : string) : Z := Z.of_nat (String.length s).

Definition finalExtension (name : string) : string :=
  let idx := LastIndexByte name "." in
  if negb (idx =? -1) && (idx <? len name - 1)
  then sliceFrom (Z.to_nat (idx + 1)) name
  else "".

Definition extMatches (expected finalExt extPart : string) : bool :=
  if Str.isEmpty expected then true
  else if Str.containsByte "." expected then String.eqb extPart expected
  else String.eqb finalExt expected.

Definition isCandidate (name finalExt extPart : string)
    (migrationLike hasDirection : bool) (cfg : Config) : bool :=
  if negb (StrictPattern cfg) then false
  else if negb (Str.isEmpty (Ext cfg)) then
    if extMatches (Ext cfg) finalExt extPart then true
    else if EnforceExt cfg && (migrationLike || hasDirection) then true
    else false
  else
    match name with
    | String a _ =>
        if Ascii.leb "0" a && Ascii.leb a "9" then true
        else if migrationLike || hasDirection then true
        else false
    | EmptyString =>
        if migrationLike || hasDirection then true else false
    end.

Definition joinPaths (ms : list Migration) : string :=
  Str.join ", " (MPath <$> ms).

(** 64-bit two's complement wrap-around of [int64] arithmetic *)
Definition wrap64 (z : Z) : Z := (z + 2 ^ 63) `mod` 2 ^ 64 - 2 ^ 63.

Definition humanExt (s : string) : string :=
  if Str.isEmpty s then "<none>" else s.

(** ** The body of [Lint] *)

Record State : Type := {
  lintErrors : list Violation;
  versions : gmap Z VersionGroup;
  versionKeys : list Z
}.

Definition report (st : State) (v : Violation) : State :=
  {| lintErrors := lintErrors st ++ [v];
     versions := versions st;
     versionKeys := versionKeys st |}.

(** The end of the loop body: the group of the version is created on its
    first record, and the record is appended to the list of its
    direction. *)
Definition addMigration (st : State) (migration : Migration) : State :=
  let version := Version migration in
  let group := default {| Up := []; Down := [] |} (versions st !! version) in
  let keys :=
    match versions st !! version with
    | Some _ => versionKeys st
    | None => versionKeys st ++ [version]
    end in
  let group :=
    if String.eqb (Direction migration) "up"
    then {| Up := Up group ++ [migration]; Down := Down group |}
    else {| Up := Up group; Down := Down group ++ [migration] |} in
  {| lintErrors := lintErrors st;
     versions := <[version := group]> (versions st);
     versionKeys := keys |}.

Definition initState : State :=
  {| lintErrors := []; versions := ∅; versionKeys := [] |}.

(** The first record of the first version of [st]. *)
Definition firstRecord (st : State) : option Migration :=
  version ← head (versionKeys st);
  group ← versions st !! version;
  head (Up group ++ Down group).

(** The classification of a filename at the top of the loop body; each
    definition is the local variable of [Lint] with the same name. *)
Definition prefixMatch (name : string) : option (list string) :=
  FindStringSubmatch migrationPrefixRe name.

Definition hasDirection (name : string) : bool :=
  bool_decide (is_Some (prefixMatch name)).

Definition extPartOpt (name : string) : string :=
  match prefixMatch name with Some m => m !!! 4%nat | None => "" end.

Definition finalExtForMatch (name : string) : string :=
  if hasDirection name && Str.isEmpty (extPartOpt name)
  then "" else finalExtension name.

Definition isMigrationLike (name : string) : bool :=
  MatchString migrationLikeRe name.

Definition matches (name : string) : option (list string) :=
  FindStringSubmatch migratePattern name.

Section Lint.

(** [filepath.Join] *)
Context (Join : string → string → string).

(** The loop body for an entry that is a regular file, or a symbolic link
    to one. *)
Definition lintFile (cfg : Config) (st : State) (name : string) : State :=
  let fullPath := Join (Path cfg) name in
  let finalExt := finalExtension name in
  let hasDirection := hasDirection name in
  let extPartOpt := extPartOpt name in
  let finalExtForMatch := finalExtForMatch name in
  let isMigrationLike := isMigrationLike name in
  let matches := matches name in
  let st :=
    if negb (Str.isEmpty (Ext cfg)) && EnforceExt cfg
       && negb (extMatches (Ext cfg) finalExtForMatch extPartOpt)
       && (bool_decide (is_Some matches) || isMigrationLike || hasDirection)
    then
      if bool_decide (is_Some matches) || negb (StrictPattern cfg)
      then report st (ExtMismatch fullPath (Ext cfg) finalExtForMatch extPartOpt)
      else st
    else st in
  match matches with
  | None =>
      if isCandidate name finalExtForMatch extPartOpt isMigrationLike hasDirection cfg
      then report st (UnmatchedFile fullPath)
      else st
  | Some m =>
      let extPart := m !!! 4%nat in
      if negb (Str.isEmpty (Ext cfg))
         && negb (extMatches (Ext cfg) finalExtForMatch extPart)
      then st
      else
        let versionStr := m !!! 1%nat in
        let namePart := m !!! 2%nat in
        let direction := m !!! 3%nat in
        match strconv.ParseInt versionStr with
        | inl parseErr => report st (VersionParseError fullPath parseErr)
        | inr version =>
            let st :=
              if (0 <? Digits cfg) && negb (len versionStr =? Digits cfg)
              then report st (DigitsMismatch fullPath (len versionStr) (Digits cfg))
              else st in
            addMigration st
              {| MPath := fullPath; FileName := name; VersionStr := versionStr;
                 Version := version; NamePart := namePart;
                 Direction := direction; ExtPart := extPart;
                 FinalExt := finalExt |}
        end
  end.

Definition lintEntry (cfg : Config) (st : State) (entry : DirEntry) : State :=
  match Type_ entry with
  | TDir => st
  | TOther => st
  | TRegular => lintFile cfg st (Name entry)
  | TSymlink (StatFails err) =>
      report st (StatSymlinkFailed (Join (Path cfg) (Name entry)) err)
  | TSymlink (StatMode regular) =>
      if regular then lintFile cfg st (Name entry) else st
  end.

(** The duplicate, pairing and name checks of one version. *)
Definition groupErrors (cfg : Config) (version : Z) (group : VersionGroup)
  : list Violation :=
  (if bool_decide (1 < length (Up group))%nat
   then [DuplicateUp version (joinPaths (Up group))] else [])
  ++ (if bool_decide (1 < length (Down group))%nat
      then [DuplicateDown version (joinPaths (Down group))] else [])
  ++ (if RequireDown cfg then
        (if bool_decide (0 < length (Up group))%nat && bool_decide (length (Down group) = 0%nat)
         then [MissingDown version] else [])
        ++ (if bool_decide (0 < length (Down group))%nat && bool_decide (length (Up group) = 0%nat)
            then [MissingUp version] else [])
      else [])
  ++ (if StrictNameMatch cfg then
        match Up group, Down group with
        | [up], [down] =>
            if negb (String.eqb (NamePart up) (NamePart down))
               || negb (String.eqb (ExtPart up) (ExtPart down))
            then [NameExtMismatch version (FileName up) (FileName down)]
            else []
        | _, _ => []
        end
      else []).

Definition gapError (prev cur : Z) : list Violation :=
  if negb (cur =? wrap64 (prev + 1)) then
    let missingStart := wrap64 (prev + 1) in
    let missingEnd := wrap64 (cur - 1) in
    if missingStart =? missingEnd
    then [MissingVersion missingStart prev cur]
    else [MissingVersions missingStart missingEnd prev cur]
  else [].

(** The loop over [i] from 1, with [prev] and [cur] the keys at [i-1]
    and [i]. *)
Fixpoint gapErrors (keys : list Z) : list Violation :=
  match keys with
  | prev :: rest =>
      match rest with
      | cur :: _ => gapError prev cur ++ gapErrors rest
      | [] => []
      end
  | [] => []
  end.

Definition scan (cfg : Config) (entries : list DirEntry) : State :=
  foldl (lintEntry cfg) initState entries.

Definition lintEntries (cfg : Config) (entries : list DirEntry) : list Violation :=
  let st := scan cfg entries in
  let keys := merge_sort Z.le (versionKeys st) in
  lintErrors st
  ++ (keys ≫= λ version,
        groupErrors cfg version
          (default {| Up := []; Down := [] |} (versions st !! version)))
  ++ (if NoGaps cfg && bool_decide (0 < length keys)%nat
      then gapErrors keys else []).

Definition Lint (cfg : Config) (dir : Directory) : FatalError + list Violation :=
  match dir with
  | NotExist => inl (PathDoesNotExist (Path cfg))
  | StatFailed err => inl (FailedToStatPath err)
  | NotADirectory => inl (PathIsNotADirectory (Path cfg))
  | ReadFailed err => inl (FailedToReadPath err)
  | Listing entries => inr (lintEntries cfg entries)
  end.

(** What one entry adds to [lintErrors], and the record it adds to a
    version group, read off the loop body run on its own. *)
Definition entryErrors (cfg : Config) (entry : DirEntry) : list Violation :=
  lintErrors (lintEntry cfg initState entry).

Definition recordOf (cfg : Config) (entry : DirEntry) : option Migration :=
  firstRecord (lintEntry cfg initState entry).

Definition records (cfg : Config) (entries : list DirEntry) : list Migration :=
  omap (recordOf cfg) entries.

End Lint.

(** The records of version [v], by direction, in the order of [recs]. *)
Definition groupOf (recs : list Migration) (v : Z) : VersionGroup :=
  {| Up := filter (λ m, Version m = v ∧ Direction m = "up") recs;
     Down := filter (λ m, Version m = v ∧ Direction m ≠ "up") recs |}.

Definition reports (st : State) (vs : list Violation) : State :=
  {| lintErrors := lintErrors st ++ vs;
     versions := versions st;
     versionKeys := versionKeys st |}.

(** The effect of one iteration that reports [errs] and groups [record]. *)
Definition applyEntry (st : State) (errs : list Violation)
    (record : option Migration) : State :=
  match record with
  | Some m => addMigration (reports st errs) m
  | None => reports st errs
  end.

(** [st] holds exactly the records [recs], grouped. *)
Record grouped (recs : list Migration) (st : State) : Prop := {
  grouped_lookup : ∀ v,
    versions st !! v =
    if decide (v ∈ Version <$> recs) then Some (groupOf recs v) else None;
  grouped_keys : ∀ v, v ∈ versionKeys st ↔ v ∈ Version <$> recs;
  grouped_NoDup : NoDup (versionKeys st)
}.

(** The sorted distinct versions of the records. *)
Definition distinctVersions (recs : list Migration) : list Z :=
  merge_sort Z.le (remove_dups (Version <$> recs)).

(** The rule that emits a violation. *)
Inductive Rule : Type := PerEntry | PerVersion | GapRule.

Global Instance Rule_eq_dec : EqDecision Rule.
Proof. solve_decision. Defined.

Definition ruleOf (v : Violation) : Rule :=
  match v with
  | StatSymlinkFailed _ _ | ExtMismatch _ _ _ _ | UnmatchedFile _
  | VersionParseError _ _ | DigitsMismatch _ _ _ => PerEntry
  | DuplicateUp _ _ | DuplicateDown _ _ | MissingDown _ | MissingUp _
  | NameExtMismatch _ _ _ => PerVersion
  | MissingVersion _ _ _ | MissingVersions _ _ _ _ => GapRule
  end.

(** The version that a per-version violation is about. *)
Definition versionOf (v : Violation) : option Z :=
  match v with
  | DuplicateUp version _ | DuplicateDown version _ | MissingDown version
  | MissingUp version | NameExtMismatch version _ _ => Some version
  | _ => None
  end.

Definition isExtMismatch (v : Violation) : bool :=
  match v with ExtMismatch _ _ _ _ => true | _ => false end.

Definition isVersionParseError (v : Violation) : bool :=
  match v with VersionParseError _ _ => true | _ => false end.

Definition isDigitsMismatch (v : Violation) : bool :=
  match v with DigitsMismatch _ _ _ => true | _ => false end.

Definition isDuplicateUpOf (version : Z) (v : Violation) : bool :=
  match v with DuplicateUp version' _ => version' =? version | _ => false end.

Definition isDuplicateDownOf (version : Z) (v : Violation) : bool :=
  match v with DuplicateDown version' _ => version' =? version | _ => false end.

(** The gap rule in the words of the specification: for two adjacent
    versions, nothing when the second is the first plus one, the single
    missing version when exactly one is missing, and otherwise the range
    from the first missing version to the last. *)
Definition missingRange (prev cur : Z) : list Violation :=
  if cur =? prev + 1 then []
  else if cur =? prev + 2 then [MissingVersion (prev + 1) prev cur]
  else [MissingVersions (prev + 1) (cur - 1) prev cur].

Fixpoint missingRanges (vs : list Z) : list Violation :=
  match vs with
  | prev :: rest =>
      match rest with
      | cur :: _ => missingRange prev cur ++ missingRanges rest
      | [] => []
      end
  | [] => []
  end.

(** The cross-version part and the gap part of the result, from the
    records alone. *)
Definition perVersionErrors (cfg : Config) (recs : list Migration)
  : list Violation :=
  distinctVersions recs ≫= λ v, groupErrors cfg v (groupOf recs v).

Definition gapRuleErrors (cfg : Config) (recs : list Migration)
  : list Violation :=
  if NoGaps cfg then gapErrors (distinctVersions recs) else [].

Definition shorter (x y : string) : Prop :=
  (String.length x < String.length y)%nat.

(** The number that a run of decimal digits denotes. *)
Fixpoint decimalFrom (acc : Z) (s : string) : Z :=
  match s with
  | EmptyString => acc
  | String a t => decimalFrom (acc * 10 + strconv.digitVal a) t
  end.

Definition decimalValue (s : string) : Z := decimalFrom 0 s.

(** ** The command: [parseFlags] and [main] *)

(** [strings.TrimPrefix(s, ".")] *)
Definition trimDot (s : string) : string :=
  match s with
  | String a t => if Ascii.eqb a "." then t else s
  | EmptyString => s
  end.

(** [parseFlags] after [flag.Parse] has stored the flag values in [flags]:
    the configuration, or the first line written to the standard error
    before the usage text and the exit code 2. *)
Definition parseFlags (flags : Config) : string + Config :=
  let ext :=
    if negb (Str.isEmpty (Ext flags)) then trimDot (Ext flags) else Ext flags in
  let cfg :=
    {| Path := Path flags; Ext := ext; EnforceExt := EnforceExt flags;
       NoGaps := NoGaps flags; Digits := Digits flags;
       RequireDown := RequireDown flags;
       StrictNameMatch := StrictNameMatch flags;
       StrictPattern := StrictPattern flags |} in
  if Str.isEmpty (Path cfg) then inl "error: -path is required"
  else if EnforceExt cfg && Str.isEmpty (Ext cfg)
  then inl "error: -enforce-ext requires -ext"
  else if Digits cfg <? 0 then inl "error: -digits must be >= 0"
  else inr cfg.

(** What [flag.Parse] makes of the command line, inside [parseFlags].  The
    flag set exits on error: a request for help ([-h], [-help]) ends the
    process with status 0, and an argument that is not a flag of the set or
    a value that does not parse (a [-digits] value that is no [int], say)
    ends it with status 2; otherwise the values are stored, and
    [parseFlags] goes on with them. *)
Inductive CommandLine : Type :=
| HelpRequested
| BadArguments
| Flags (flags : Config).

(** How [main] ends. *)
Inductive Outcome : Type :=
| HelpShown
| FlagError
| UsageError (line : string)
| FatalExit (err : FatalError)
| LintFailed (errs : list Violation)
| LintPassed.

Definition exitCode (o : Outcome) : Z :=
  match o with
  | HelpShown => 0
  | FlagError => 2
  | UsageError _ => 2
  | FatalExit _ => 1
  | LintFailed _ => 1
  | LintPassed => 0
  end.

Definition main (Join : string → string → string) (args : CommandLine)
    (dir : Directory) : Outcome :=
  match args with
  | HelpRequested => HelpShown
  | BadArguments => FlagError
  | Flags flags =>
      match parseFlags flags with
      | inl line => UsageError line
      | inr cfg =>
          match Lint Join cfg dir with
          | inl err => FatalExit err
          | inr lintErrors =>
              if bool_decide (0 < length lintErrors)%nat
              then LintFailed lintErrors
              else LintPassed
          end
      end
  end.

(** [cfg] with the digit-width check turned off. *)
Definition withoutDigits (cfg : Config) : Config :=
  {| Path := Path cfg; Ext := Ext cfg; EnforceExt := EnforceExt cfg;
     NoGaps := NoGaps cfg; Digits := 0; RequireDown := RequireDown cfg;
     StrictNameMatch := StrictNameMatch cfg;
     StrictPattern := StrictPattern cfg |}.

(** What [migrationLikeRe] reads after the underscore. *)
Definition likeRest : Regexp :=
  Concat (Plus AnyCharNotNL)
    (Concat (Literal ".")
       (Concat (Capture 1 upOrDown)
          (Concat (Literal ".") (Plus AnyCharNotNL)))).

(** An entry that the loop passes over: a directory, a special file, or
    a symbolic link to something that is not a regular file. *)
Definition skipped (entry : DirEntry) : bool :=
  match Type_ entry with
  | TDir | TOther | TSymlink (StatMode false) => true
  | _ => false
  end.

Definition withExt (flags : Config) (ext : string) : Config :=
  {| Path := Path flags; Ext := ext; EnforceExt := EnforceExt flags;
     NoGaps := NoGaps flags; Digits := Digits flags;
     RequireDown := RequireDown flags;
     StrictNameMatch := StrictNameMatch flags;
     StrictPattern := StrictPattern flags |}.

(** The option that a violation depends on is set. *)
Definition ruleEnabled (cfg : Config) (v : Violation) : bool :=
  match v with
  | StatSymlinkFailed _ _ | VersionParseError _ _
  | DuplicateUp _ _ | DuplicateDown _ _ => true
  | ExtMismatch _ _ _ _ => EnforceExt cfg && negb (Str.isEmpty (Ext cfg))
  | UnmatchedFile _ => StrictPattern cfg
  | DigitsMismatch _ _ _ => 0 <? Digits cfg
  | MissingDown _ | MissingUp _ => RequireDown cfg
  | NameExtMismatch _ _ _ => StrictNameMatch cfg
  | MissingVersion _ _ _ | MissingVersions _ _ _ _ => NoGaps cfg
  end.

(** [name] begins with a non-empty run of digits and an underscore. *)
Definition startsWithVersion (name : string) : Prop :=
  ∃ v rest, name = v +:+ "_" +:+ rest
            ∧ v ≠ "" ∧ Str.forallb strconv.isDigit v = true.

(** The flag defaults of [parseFlags] for [-path dir]. *)
Definition defaultConfig (dir : string) : Config :=
  {| Path := dir; Ext := ""; EnforceExt := false; NoGaps := false;
     Digits := 0; RequireDown := false; StrictNameMatch := false;
     StrictPattern := false |}.

Definition regularFile (name : string) : DirEntry :=
  {| Name := name; Type_ := TRegular |}.

(** [path/filepath] where the separator is the slash: [Clean] and the
    [Join] of two elements. *)
Module filepath.

(** The elements of a path: what stands between its slashes. *)
Fixpoint elements (path : string) : list string :=
  match path with
  | EmptyString => [""]
  | String a t =>
      if Ascii.eqb a "/" then "" :: elements t
      else match elements t with
           | c :: cs => String a c :: cs
           | [] => [String a ""]
           end
  end.

(** One element read by [Clean].  [out] holds the elements written so
    far, the last one first, and [dotdot] counts the [..] elements that
    it begins with, which no further [..] can remove.  An empty element
    and [.] are dropped; [..] removes the last element written if there
    is one to remove, is dropped at the root, and is written otherwise;
    any other element is written. *)
Definition cleanStep (rooted : bool) (st : list string * nat) (c : string)
    : list string * nat :=
  let '(out, dotdot) := st in
  if String.eqb c "" || String.eqb c "." then st
  else if String.eqb c ".." then
    if (dotdot <? length out)%nat then (tail out, dotdot)
    else if rooted then st
    else (".." :: out, S dotdot)
  else (c :: out, dotdot).

Definition Clean (path : string) : string :=
  match path with
  | EmptyString => "."
  | String a _ =>
      let rooted := Ascii.eqb a "/" in
      let out := fst (foldl (cleanStep rooted) ([], 0%nat) (elements path)) in
      let body := Str.join "/" (rev out) in
      if rooted then "/" +:+ body
      else if Str.isEmpty body then "." else body
  end.

(** [filepath.Join(dir, name)]: empty elements are ignored, and the rest
    is joined by slashes and cleaned. *)
Definition Join (dir name : string) : string :=
  if negb (Str.isEmpty dir) then Clean (dir +:+ "/" +:+ name)
  else if negb (Str.isEmpty name) then Clean name
  else "".

End filepath.

(** [filepath.Join] with the slash as separator. *)
Definition slashJoin (dir name : string) : string := filepath.Join dir name.

(** An entry whose name [Lint] classifies: a regular file, or a symbolic
    link to one. *)
Definition isFile (entry : DirEntry) : bool :=
  match Type_ entry with
  | TRegular | TSymlink (StatMode true) => true
  | _ => false
  end.

(** ** The text of a violation *)

Section Message.

(** [strconv.Quote], the [%q] verb *)
Context (quote : string → string).

Definition numErrorText (e : strconv.NumError) : string :=
  match e with
  | strconv.ErrSyntax num =>
      "strconv.ParseInt: parsing " +:+ quote num +:+ ": invalid syntax"
  | strconv.ErrRange num =>
      "strconv.ParseInt: parsing " +:+ quote num +:+ ": value out of range"
  end.

Definition formatExtMismatch (path expected finalExt extPart : string) : string :=
  if Str.containsByte "." expected
  then "extension mismatch: " +:+ path +:+ " has ext part "
       +:+ quote (humanExt extPart) +:+ ", expected " +:+ quote expected
  else "extension mismatch: " +:+ path +:+ " has final extension "
       +:+ quote (humanExt finalExt) +:+ " (ext part "
       +:+ quote (humanExt extPart) +:+ "), expected " +:+ quote expected.

Definition message (v : Violation) : string :=
  match v with
  | StatSymlinkFailed path err =>
      "failed to stat symlink: " +:+ path +:+ ": " +:+ err
  | ExtMismatch path expected finalExt extPart =>
      formatExtMismatch path expected finalExt extPart
  | UnmatchedFile path =>
      "unmatched file: " +:+ path
      +:+ " does not match <VERSION>_<NAME>.(up|down).<ext>"
  | VersionParseError path err =>
      "version parse error in " +:+ path +:+ ": " +:+ numErrorText err
  | DigitsMismatch path l expected =>
      "digits mismatch: " +:+ path +:+ " has VERSION length " +:+ pretty l
      +:+ ", expected " +:+ pretty expected
  | DuplicateUp version paths =>
      "duplicate up migrations for version " +:+ pretty version +:+ ": " +:+ paths
  | DuplicateDown version paths =>
      "duplicate down migrations for version " +:+ pretty version +:+ ": " +:+ paths
  | MissingDown version =>
      "missing down migration for version " +:+ pretty version
  | MissingUp version =>
      "missing up migration for version " +:+ pretty version
  | NameExtMismatch version up down =>
      "name/ext mismatch for version " +:+ pretty version +:+ ": up=" +:+ up
      +:+ ", down=" +:+ down
  | MissingVersion missing prev cur =>
      "missing version " +:+ pretty missing +:+ " (between " +:+ pretty prev
      +:+ " and " +:+ pretty cur +:+ ")"
  | MissingVersions missingStart missingEnd prev cur =>
      "missing versions " +:+ pretty missingStart +:+ ".." +:+ pretty missingEnd
      +:+ " (between " +:+ pretty prev +:+ " and " +:+ pretty cur +:+ ")"
  end.

End Message.

(** ** Definitions used by the statements *)

(** The texts that a greedy run of bytes satisfying [p] can leave unread,
    in the order the search tries them: the longest run first. *)
Fixpoint tails (p : ascii → bool) (s : string) : list string :=
  match s with
  | EmptyString => [s]
  | String a t => if p a then tails p t ++ [s] else [s]
  end.

Definition plusTails (p : ascii → bool) (s : string) : list string :=
  match s with
  | String a t => if p a then tails p t else []
  | EmptyString => []
  end.

(** [s] splits as [<v>_<n>.<d>.<e>] with [v] a non-empty run of digits,
    [n] and [e] non-empty runs of bytes other than a newline, and [d] one
    of [up] and [down]. *)
Definition canonicalSplit (s v n d e : string) : Prop :=
  s = v +:+ "_" +:+ n +:+ "." +:+ d +:+ "." +:+ e
  ∧ v ≠ "" ∧ Str.forallb strconv.isDigit v = true
  ∧ n ≠ "" ∧ Str.forallb notNL n = true
  ∧ (d = "up" ∨ d = "down")
  ∧ e ≠ "" ∧ Str.forallb notNL e = true.

(** [s] splits as [<v>_<n>.<d>] followed by [x], which is empty or a dot
    and a run of bytes other than a newline. *)
Definition prefixSplit (s v n d x : string) : Prop :=
  s = v +:+ "_" +:+ n +:+ "." +:+ d +:+ x
  ∧ v ≠ "" ∧ Str.forallb strconv.isDigit v = true
  ∧ n ≠ "" ∧ Str.forallb notNL n = true
  ∧ (d = "up" ∨ d = "down")
  ∧ (x = "" ∨ ∃ e, x = "." +:+ e ∧ Str.forallb notNL e = true).

(** The fourth group of [migrationPrefixRe] when [x] follows the
    direction. *)
Definition extGroup (x : string) : option string :=
  match x with
  | EmptyString => None
  | String _ e => Some e
  end.

(** What [migratePattern] reads after the name group. *)
Definition dirAndExt : Regexp :=
  Concat (Literal ".")
    (Concat (Capture 3 upOrDown)
       (Concat (Literal ".")
          (Concat (Capture 4 (Plus AnyCharNotNL)) EndText))).

(** The common beginning of [migratePattern] and [migrationPrefixRe]:
    [^([0-9]+)_(.+)] followed by [rest]. *)
Definition versionAndName (rest : Regexp) : Regexp :=
  Concat BeginText
    (Concat (Capture 1 digits1)
       (Concat (Literal "_")
          (Concat (Capture 2 (Plus AnyCharNotNL)) rest))).

(** What [migrationPrefixRe] reads after the name group. *)
Definition dirAndOptExt : Regexp :=
  Concat (Literal ".")
    (Concat (Capture 3 upOrDown)
       (Concat (Quest (Concat (Literal ".") (Capture 4 (Star AnyCharNotNL))))
          EndText)).

(** No group has matched yet. *)
Definition noCaps (r : Regexp) : list (option string) :=
  replicate (S (numSubexp r)) None.

(* ===================================================================== *)
(** * Properties *)

(** ** Byte strings *)

Local Arguments String.append : simpl nomatch.

Lemma str_app_nil_r (s : string) : s +:+ "" = s.
Proof. induction s; simpl; congruence. Qed.

Lemma str_app_assoc (a b c : string) : (a +:+ b) +:+ c = a +:+ b +:+ c.
Proof. induction a; simpl; congruence. Qed.

Lemma str_length_app (a b : string) :
  String.length (a +:+ b) = (String.length a + String.length b)%nat.
Proof. induction a; simpl; congruence. Qed.

Lemma str_take_app (a b : string) :
  Str.take (String.length (a +:+ b) - String.length b) (a +:+ b) = a.
Proof.
  rewrite str_length_app.
  replace (String.length a + String.length b - String.length b)%nat
    with (String.length a) by lia.
  induction a; simpl; [by destruct b | congruence].
Qed.

Lemma str_take_all (s : string) : Str.take (String.length s - 0) s = s.
Proof.
  rewrite Nat.sub_0_r. induction s; simpl; congruence.
Qed.

Lemma str_length_zero (s : string) : String.length s = 0%nat → s = "".
Proof. by destruct s. Qed.

Lemma str_app_same_length (a b c d : string) :
  a +:+ b = c +:+ d → String.length b = String.length d → a = c ∧ b = d.
Proof.
  revert c. induction a as [|x a IH]; intros [|y c] H Hl; simpl in *.
  - done.
  - apply (f_equal String.length) in H. simpl in H. rewrite str_length_app in H. lia.
  - apply (f_equal String.length) in H. simpl in H. rewrite str_length_app in H. lia.
  - injection H as -> H. destruct (IH _ H Hl) as [-> ->]. done.
Qed.

Lemma str_forallb_app (p : ascii → bool) (a b : string) :
  Str.forallb p (a +:+ b) = Str.forallb p a && Str.forallb p b.
Proof. induction a; simpl; [done|]. rewrite IHa. by rewrite andb_assoc. Qed.

(** ** The search order of a greedy run *)

Lemma elem_of_tails (p : ascii → bool) (s x : string) :
  x ∈ tails p s ↔ ∃ pre, s = pre +:+ x ∧ Str.forallb p pre = true.
Proof.
  induction s as [|a t IH]; simpl.
  - rewrite list_elem_of_singleton. split.
    + intros ->. by exists "".
    + intros [[|??] [? ?]]; simpl in *; congruence.
  - destruct (p a) eqn:Hp.
    + rewrite elem_of_app, list_elem_of_singleton, IH. split.
      * intros [[pre [-> Hpre]] | ->].
        -- exists (String a pre). simpl. by rewrite Hp, Hpre.
        -- by exists "".
      * intros [[|b pre] [Heq Hpre]]; simpl in *.
        -- by right.
        -- injection Heq as -> ->. left. exists pre. split; [done|].
           by apply andb_prop in Hpre as [_ ?].
    + rewrite list_elem_of_singleton. split.
      * intros ->. by exists "".
      * intros [[|b pre] [Heq Hpre]]; simpl in *; [done|].
        injection Heq as -> ->. rewrite Hp in Hpre. done.
Qed.

Lemma elem_of_plusTails (p : ascii → bool) (s x : string) :
  x ∈ plusTails p s ↔
  ∃ pre, pre ≠ "" ∧ s = pre +:+ x ∧ Str.forallb p pre = true.
Proof.
  destruct s as [|a t]; simpl.
  - split; [by intros ?%elem_of_nil|].
    intros [[|??] (? & ? & ?)]; simpl in *; congruence.
  - destruct (p a) eqn:Hp.
    + rewrite elem_of_tails. split.
      * intros [pre [-> Hpre]]. exists (String a pre). simpl.
        by rewrite Hp, Hpre.
      * intros [[|b pre] (Hne & Heq & Hpre)]; simpl in *; [done|].
        injection Heq as -> ->. exists pre. split; [done|].
        by apply andb_prop in Hpre as [_ ?].
    + split; [by intros ?%elem_of_nil|].
      intros [[|b pre] (Hne & Heq & Hpre)]; simpl in *; [done|].
      injection Heq as -> ->. rewrite Hp in Hpre. done.
Qed.

Lemma tails_length (p : ascii → bool) (s x : string) :
  x ∈ tails p s → (String.length x ≤ String.length s)%nat.
Proof.
  intros [pre [-> _]]%elem_of_tails. rewrite str_length_app. lia.
Qed.

Lemma tails_sorted (p : ascii → bool) (s : string) :
  StronglySorted shorter (tails p s).
Proof.
  induction s as [|a t IH]; simpl.
  - repeat constructor.
  - destruct (p a); [|repeat constructor].
    apply StronglySorted_app_2; [|exact IH|repeat constructor].
    intros x y Hx ->%list_elem_of_singleton.
    apply tails_length in Hx. unfold shorter. simpl. lia.
Qed.

Lemma plusTails_sorted (p : ascii → bool) (s : string) :
  StronglySorted shorter (plusTails p s).
Proof.
  destruct s as [|a t]; simpl; [constructor|].
  destruct (p a); [apply tails_sorted | constructor].
Qed.

(** The first result of a search that continues with [f] after one of the
    choices [l]: the choices tried before the successful one all fail. *)
Lemma head_bind_Some {A B} (f : A → list B) (l : list A) (y : B) :
  head (l ≫= f) = Some y →
  ∃ l1 x l2, l = l1 ++ x :: l2 ∧ Forall (λ z, f z = []) l1
             ∧ head (f x) = Some y.
Proof.
  induction l as [|a l IH]; simpl; [done|].
  destruct (f a) as [|b k] eqn:Hfa; simpl.
  - intros (l1 & x & l2 & -> & Hl1 & Hx)%IH.
    exists (a :: l1), x, l2. split; [done|]. split; [|done].
    by constructor.
  - intros [= ->]. exists [], a, l. split; [done|].
    split; [constructor|]. by rewrite Hfa.
Qed.

(** ** Threads of the search *)

Lemma elem_of_step1 (p : ascii → bool) (t t' : thread) :
  t' ∈ step1 p t ↔ ∃ a, p a = true ∧ t.1 = String a t'.1 ∧ t'.2 = t.2.
Proof.
  destruct t as [[|a rest] caps], t' as [rest' caps']; unfold step1; simpl.
  - split; [by intros ?%elem_of_nil | by intros (? & ? & ? & ?)].
  - destruct (p a) eqn:Hp.
    + rewrite list_elem_of_singleton. split.
      * intros [= -> ->]. by exists a.
      * intros (b & ? & [= -> ->] & ->). done.
    + split; [by intros ?%elem_of_nil|].
      intros (b & ? & [= -> ->] & ->). congruence.
Qed.

Lemma loop_step1 (p : ascii → bool) (fuel : nat) (s : string) caps :
  (String.length s < fuel)%nat →
  loop (step1 p) fuel (s, caps) = (λ x, (x, caps)) <$> tails p s.
Proof.
  revert fuel. induction s as [|a t IH]; intros [|fuel] Hlen; simpl in *;
    try lia; [done|].
  unfold step1; simpl. destruct (p a); [|done]. simpl.
  rewrite decide_True by lia. rewrite IH by lia.
  by rewrite app_nil_r, fmap_app.
Qed.

Lemma loop_ext (f g : thread → list thread) (fuel : nat) (t : thread) :
  (∀ t, f t = g t) → loop f fuel t = loop g fuel t.
Proof.
  intros Hfg. revert t. induction fuel as [|n IH]; intros t; simpl; [done|].
  rewrite Hfg. f_equal. apply list_bind_ext; [|done].
  intros t'. case_decide; [apply IH | done].
Qed.

Section SingleByte.

Context (input : string) (r : Regexp) (p : ascii → bool).
Hypothesis r_step : ∀ t, exec input r t = step1 p t.

Lemma exec_Star_step (s : string) caps :
  exec input (Star r) (s, caps) = (λ x, (x, caps)) <$> tails p s.
Proof.
  change (exec input (Star r) (s, caps))
    with (loop (exec input r) (S (String.length s)) (s, caps)).
  rewrite (loop_ext _ (step1 p)) by done.
  apply loop_step1. lia.
Qed.

Lemma exec_Plus_step (s : string) caps :
  exec input (Plus r) (s, caps) = (λ x, (x, caps)) <$> plusTails p s.
Proof.
  change (exec input (Plus r) (s, caps))
    with (exec input r (s, caps) ≫= λ t', exec input (Star r) t').
  rewrite r_step. unfold step1, plusTails. cbn [fst snd].
  destruct s as [|a t]; [done|].
  destruct (p a); [|done].
  cbn [mbind list_bind]. rewrite app_nil_r. apply exec_Star_step.
Qed.

End SingleByte.

Lemma elem_of_exec_Literal input (c : ascii) (t t' : thread) :
  t' ∈ exec input (Literal c) t ↔ t.1 = String c t'.1 ∧ t'.2 = t.2.
Proof.
  simpl. rewrite elem_of_step1. split.
  - intros (a & ->%Ascii.eqb_eq & ? & ?). done.
  - intros [? ?]. exists c. by rewrite Ascii.eqb_refl.
Qed.

Lemma elem_of_exec_Concat input (r1 r2 : Regexp) (t t' : thread) :
  t' ∈ exec input (Concat r1 r2) t ↔
  ∃ m, t' ∈ exec input r2 m ∧ m ∈ exec input r1 t.
Proof. simpl. apply list_elem_of_bind. Qed.

Lemma elem_of_exec_Capture input (i : nat) (r : Regexp) (t t' : thread) :
  t' ∈ exec input (Capture i r) t ↔
  ∃ m, t' = (m.1, <[i := Some (Str.take (String.length t.1 - String.length m.1) t.1)]> m.2)
       ∧ m ∈ exec input r t.
Proof. simpl. apply list_elem_of_fmap. Qed.

Lemma elem_of_exec_EndText input (t t' : thread) :
  t' ∈ exec input EndText t ↔ t' = t ∧ t.1 = "".
Proof.
  simpl. destruct t as [[|a s] caps]; simpl.
  - rewrite list_elem_of_singleton. naive_solver.
  - rewrite elem_of_nil. naive_solver.
Qed.

Lemma elem_of_exec_BeginText input (t t' : thread) :
  t' ∈ exec input BeginText t ↔
  t' = t ∧ String.length t.1 = String.length input.
Proof.
  simpl. case_decide.
  - rewrite list_elem_of_singleton. naive_solver.
  - rewrite elem_of_nil. naive_solver.
Qed.

Lemma elem_of_exec_Plus_notNL input (t t' : thread) :
  t' ∈ exec input (Plus AnyCharNotNL) t ↔
  ∃ pre, pre ≠ "" ∧ t.1 = pre +:+ t'.1 ∧ Str.forallb notNL pre = true
         ∧ t'.2 = t.2.
Proof.
  destruct t as [s caps], t' as [s' caps'].
  rewrite (exec_Plus_step input AnyCharNotNL notNL) by done.
  rewrite list_elem_of_fmap. setoid_rewrite elem_of_plusTails. simpl.
  naive_solver.
Qed.

Lemma elem_of_exec_Star_notNL input (t t' : thread) :
  t' ∈ exec input (Star AnyCharNotNL) t ↔
  ∃ pre, t.1 = pre +:+ t'.1 ∧ Str.forallb notNL pre = true ∧ t'.2 = t.2.
Proof.
  destruct t as [s caps], t' as [s' caps'].
  rewrite (exec_Star_step input AnyCharNotNL notNL) by done.
  rewrite list_elem_of_fmap. setoid_rewrite elem_of_tails. simpl.
  naive_solver.
Qed.

Lemma elem_of_exec_digits1 input (t t' : thread) :
  t' ∈ exec input digits1 t ↔
  ∃ pre, pre ≠ "" ∧ t.1 = pre +:+ t'.1
         ∧ Str.forallb strconv.isDigit pre = true ∧ t'.2 = t.2.
Proof.
  destruct t as [s caps], t' as [s' caps']. unfold digits1.
  rewrite (exec_Plus_step input (CharClass "0" "9") strconv.isDigit) by done.
  rewrite list_elem_of_fmap. setoid_rewrite elem_of_plusTails. simpl.
  naive_solver.
Qed.

Lemma elem_of_exec_upOrDown input (t t' : thread) :
  t' ∈ exec input upOrDown t ↔
  ∃ d, (d = "up" ∨ d = "down") ∧ t.1 = d +:+ t'.1 ∧ t'.2 = t.2.
Proof.
  unfold upOrDown.
  change (exec input (Alternate (Lits "up") (Lits "down")) t)
    with (exec input (Lits "up") t ++ exec input (Lits "down") t).
  rewrite elem_of_app. cbn [Lits].
  repeat setoid_rewrite elem_of_exec_Concat.
  repeat setoid_rewrite elem_of_exec_Literal.
  split.
  - intros [(m & [? ?] & [? ?]) | (m1 & (m2 & (m3 & [? ?] & [? ?]) & [? ?]) & [? ?])].
    + exists "up". simpl. split; [by left|]. split; congruence.
    + exists "down". simpl. split; [by right|]. split; congruence.
  - intros (d & [-> | ->] & Ht & Hc); simpl in Ht.
    + left. exists (String "p" t'.1, t.2). done.
    + right. exists (String "o" (String "w" (String "n" t'.1)), t.2).
      split; [|done].
      exists (String "w" (String "n" t'.1), t.2). split; [|done].
      exists (String "n" t'.1, t.2). done.
Qed.

Lemma elem_of_exec_dirAndExt input (x : string) caps (t' : thread) :
  t' ∈ exec input dirAndExt (x, caps) ↔
  ∃ d e, x = "." +:+ d +:+ "." +:+ e ∧ (d = "up" ∨ d = "down")
         ∧ e ≠ "" ∧ Str.forallb notNL e = true
         ∧ t' = ("", <[4%nat := Some e]> (<[3%nat := Some d]> caps)).
Proof.
  unfold dirAndExt.
  repeat setoid_rewrite elem_of_exec_Concat.
  repeat setoid_rewrite elem_of_exec_Capture.
  setoid_rewrite elem_of_exec_EndText.
  setoid_rewrite elem_of_exec_Plus_notNL.
  setoid_rewrite elem_of_exec_upOrDown.
  repeat setoid_rewrite elem_of_exec_Literal.
  split.
  - intros ([s1 c1] & ([s2 c2] & ([s3 c3] & ([s4 c4] & [-> Hend]
                & ([s5 c5] & [= -> ->] & (e & ? & He & ? & Hc5)))
             & [Hm3 Hc3]) & ([s6 c6] & [= -> ->] & (d & Hd & Hm6 & Hc6)))
             & [Hx Hc1]).
    simpl in *. subst. rewrite str_app_nil_r.
    exists d, e. rewrite (str_take_app d (String "." e)), str_take_all.
    done.
  - intros (d & e & -> & Hd & He & Hnl & ->).
    exists (d +:+ "." +:+ e, caps). split; [|done].
    exists ("." +:+ e, <[3%nat:=Some d]> caps). split.
    + exists (e, <[3%nat:=Some d]> caps). split; [|done].
      exists ("", <[4%nat:=Some e]> (<[3%nat:=Some d]> caps)).
      split; [done|].
      exists ("", <[3%nat:=Some d]> caps). simpl. split.
      * by rewrite str_take_all.
      * exists e. by rewrite str_app_nil_r.
    + exists ("." +:+ e, caps). cbn [fst snd]. split.
      * by rewrite (str_take_app d ("." +:+ e)).
      * exists d. done.
Qed.

(** ** The version and name groups *)

Lemma isDigit_not_underscore (a : ascii) :
  strconv.isDigit a = true → a ≠ "_"%char.
Proof. intros H ->. done. Qed.

Lemma digit_run_unique (v v' r r' : string) :
  Str.forallb strconv.isDigit v = true →
  Str.forallb strconv.isDigit v' = true →
  v +:+ "_" +:+ r = v' +:+ "_" +:+ r' → v = v' ∧ r = r'.
Proof.
  revert v'. induction v as [|a v IH]; intros [|b v'] Hv Hv' Heq;
    simpl in *.
  - by injection Heq as ->.
  - injection Heq as <- _. by apply andb_prop in Hv' as [? _].
  - injection Heq as -> _. by apply andb_prop in Hv as [? _].
  - injection Heq as -> Heq.
    apply andb_prop in Hv as [_ Hv]. apply andb_prop in Hv' as [_ Hv'].
    destruct (IH _ Hv Hv' Heq) as [-> ->]. done.
Qed.

Lemma exec_BeginText_here (s : string) (r : Regexp) caps :
  exec s (Concat BeginText r) (s, caps) = exec s r (s, caps).
Proof.
  change (exec s (Concat BeginText r) (s, caps))
    with (exec s BeginText (s, caps) ≫= exec s r).
  cbn [exec fst]. rewrite decide_True by done.
  cbn [mbind list_bind]. apply app_nil_r.
Qed.

Lemma exec_BeginText_later (input rest : string) (r : Regexp) caps :
  String.length rest ≠ String.length input →
  exec input (Concat BeginText r) (rest, caps) = [].
Proof.
  intros Hlen.
  change (exec input (Concat BeginText r) (rest, caps))
    with (exec input BeginText (rest, caps) ≫= exec input r).
  cbn [exec fst]. by rewrite decide_False.
Qed.

Lemma searchFrom_later (input rest : string) (r : Regexp) :
  (String.length rest < String.length input)%nat →
  searchFrom input (Concat BeginText r) rest = None.
Proof.
  induction rest as [|a rest IH]; intros Hlen;
    cbn [searchFrom]; rewrite exec_BeginText_later by lia; [done|].
  simpl in *. apply IH. lia.
Qed.

Lemma searchFrom_anchored (s : string) (r : Regexp) :
  searchFrom s (Concat BeginText r) s =
  (λ t' : thread,
     <[O := Some (Str.take (String.length s - String.length t'.1) s)]> t'.2)
    <$> head (exec s (Concat BeginText r) (s, noCaps (Concat BeginText r))).
Proof.
  unfold noCaps.
  destruct s as [|a s]; cbn [searchFrom];
    destruct (head _) as [[s' c]|] eqn:Hhd; try done.
  simpl. apply searchFrom_later. simpl. lia.
Qed.

Lemma exec_Concat input (r1 r2 : Regexp) (t : thread) :
  exec input (Concat r1 r2) t = exec input r1 t ≫= exec input r2.
Proof. done. Qed.

Lemma exec_Capture_name input (s : string) caps :
  exec input (Capture 2 (Plus AnyCharNotNL)) (s, caps) =
  (λ x, (x, <[2%nat := Some (Str.take (String.length s - String.length x) s)]> caps))
    <$> plusTails notNL s.
Proof.
  change (exec input (Capture 2 (Plus AnyCharNotNL)) (s, caps))
    with ((λ t' : thread,
             (t'.1, <[2%nat := Some (Str.take (String.length s - String.length t'.1) s)]> t'.2))
            <$> exec input (Plus AnyCharNotNL) (s, caps)).
  rewrite (exec_Plus_step input AnyCharNotNL notNL) by done.
  by rewrite <- list_fmap_compose.
Qed.

(** The first match of [^([0-9]+)_(.+)] followed by [rest]: the version is
    the leading digit run, and the name is the longest one after which
    [rest] matches. *)
Lemma head_versionAndName (rest : Regexp) (s : string) caps (t' : thread) :
  head (exec s (versionAndName rest) (s, caps)) = Some t' →
  ∃ v n x,
    s = v +:+ "_" +:+ n +:+ x
    ∧ v ≠ "" ∧ Str.forallb strconv.isDigit v = true
    ∧ n ≠ "" ∧ Str.forallb notNL n = true
    ∧ head (exec s rest (x, <[2%nat := Some n]> (<[1%nat := Some v]> caps)))
      = Some t'
    ∧ ∀ n' x',
        n' ≠ "" → Str.forallb notNL n' = true → n +:+ x = n' +:+ x' →
        (String.length n < String.length n')%nat →
        exec s rest (x', <[2%nat := Some n']> (<[1%nat := Some v]> caps)) = [].
Proof.
  unfold versionAndName. rewrite exec_BeginText_here, exec_Concat.
  intros (l1 & x1 & l2 & Hl & _ & H)%head_bind_Some.
  assert (x1 ∈ exec s (Capture 1 digits1) (s, caps)) as Hx1.
  { rewrite Hl. set_solver. }
  apply elem_of_exec_Capture in Hx1 as ([s1 c1] & -> & Hm).
  apply elem_of_exec_digits1 in Hm as (v & Hv & Hs & Hdig & Hc).
  cbn [fst snd] in *. subst s c1. rewrite str_take_app in *. clear Hl l1 l2.
  rewrite exec_Concat in H.
  apply head_bind_Some in H as (l1 & [s2 c2] & l2 & Hl & _ & H).
  assert ((s2, c2) ∈ exec (v +:+ s1) (Literal "_") (s1, <[1%nat:=Some v]> caps)) as Hx2.
  { rewrite Hl. set_solver. }
  apply elem_of_exec_Literal in Hx2 as [Hs1 Hc2]. cbn [fst snd] in *.
  subst s1 c2. clear Hl l1 l2.
  rewrite exec_Concat, exec_Capture_name in H.
  apply head_bind_Some in H as (k1 & x3 & k2 & Hk & Hfail & H).
  apply fmap_app_inv in Hk as (p1 & p' & -> & Hp' & Hk).
  symmetry in Hp'. apply fmap_cons_inv in Hp' as (x0 & p2 & -> & -> & ->).
  assert (x0 ∈ plusTails notNL s2) as Hx0 by (rewrite Hk; set_solver).
  apply elem_of_plusTails in Hx0 as (n & Hn & -> & Hnl).
  rewrite str_take_app in H.
  exists v, n, x0. repeat split; try done.
  intros n' x' Hn' Hnl' Heq Hlen.
  assert (x' ∈ plusTails notNL (n +:+ x0)) as Hx'.
  { apply elem_of_plusTails. by exists n'. }
  assert (String.length x' < String.length x0)%nat as Hlen'.
  { apply (f_equal String.length) in Heq. rewrite !str_length_app in Heq. lia. }
  pose proof (plusTails_sorted notNL (n +:+ x0)) as Hsorted.
  rewrite Hk in Hx', Hsorted.
  apply elem_of_app in Hx' as [Hx' | Hx'].
  - rewrite Forall_forall in Hfail.
    specialize (Hfail _ (list_elem_of_fmap_2 _ _ _ Hx')). cbn beta in Hfail.
    rewrite Heq in Hfail |- *. by rewrite str_take_app in Hfail.
  - apply StronglySorted_app_1_r in Hsorted.
    apply StronglySorted_cons in Hsorted as [Hlt _].
    apply elem_of_cons in Hx' as [-> | Hx']; [lia|].
    rewrite Forall_forall in Hlt. specialize (Hlt _ Hx'). unfold shorter in Hlt. lia.
Qed.

Lemma elem_of_versionAndName (rest : Regexp) (v n x : string) caps (t' : thread) :
  v ≠ "" → Str.forallb strconv.isDigit v = true →
  n ≠ "" → Str.forallb notNL n = true →
  t' ∈ exec (v +:+ "_" +:+ n +:+ x) rest
         (x, <[2%nat := Some n]> (<[1%nat := Some v]> caps)) →
  t' ∈ exec (v +:+ "_" +:+ n +:+ x) (versionAndName rest)
         (v +:+ "_" +:+ n +:+ x, caps).
Proof.
  intros Hv Hdig Hn Hnl Ht'. unfold versionAndName.
  rewrite exec_BeginText_here.
  apply elem_of_exec_Concat.
  exists ("_" +:+ n +:+ x, <[1%nat := Some v]> caps). split.
  - apply elem_of_exec_Concat. exists (n +:+ x, <[1%nat := Some v]> caps).
    split; [|by apply elem_of_exec_Literal].
    apply elem_of_exec_Concat.
    exists (x, <[2%nat := Some n]> (<[1%nat := Some v]> caps)).
    split; [done|].
    rewrite exec_Capture_name. apply list_elem_of_fmap. exists x.
    rewrite str_take_app. split; [done|].
    apply elem_of_plusTails. by exists n.
  - apply elem_of_exec_Capture. exists ("_" +:+ n +:+ x, caps).
    cbn [fst snd]. rewrite (str_take_app v ("_" +:+ n +:+ x)).
    split; [done|]. apply elem_of_exec_digits1. by exists v.
Qed.

(** ** The canonical pattern *)

Lemma migratePattern_unfold : migratePattern = versionAndName dirAndExt.
Proof. done. Qed.

Lemma str_app_same_prefix_length (a b c d : string) :
  a +:+ b = c +:+ d → String.length a = String.length c → a = c ∧ b = d.
Proof.
  intros Heq Hlen. apply str_app_same_length; [done|].
  apply (f_equal String.length) in Heq. rewrite !str_length_app in Heq. lia.
Qed.

Lemma canonicalSplit_unique (s v n d e v' n' d' e' : string) :
  canonicalSplit s v n d e → canonicalSplit s v' n' d' e' →
  String.length n = String.length n' →
  v = v' ∧ n = n' ∧ d = d' ∧ e = e'.
Proof.
  intros (Hs & _ & Hv & _ & _ & Hd & _) (Hs' & _ & Hv' & _ & _ & Hd' & _) Hlen.
  rewrite Hs in Hs'.
  apply digit_run_unique in Hs' as [<- Hs']; [|done..].
  apply str_app_same_prefix_length in Hs' as [<- Hs']; [|done].
  destruct Hd as [-> | ->], Hd' as [-> | ->]; simpl in Hs'; by simplify_eq.
Qed.

Lemma searchFrom_migratePattern (s : string) caps :
  searchFrom s migratePattern s = Some caps →
  ∃ v n d e,
    caps = [Some s; Some v; Some n; Some d; Some e]
    ∧ canonicalSplit s v n d e
    ∧ ∀ v' n' d' e', canonicalSplit s v' n' d' e' →
                     (String.length n' ≤ String.length n)%nat.
Proof.
  rewrite migratePattern_unfold. unfold versionAndName at 1.
  rewrite searchFrom_anchored. fold (versionAndName dirAndExt).
  destruct (head _) as [t'|] eqn:Hhd; [|done]. intros [= <-].
  apply head_versionAndName in Hhd
    as (v & n & x & Hs & Hv & Hdig & Hn & Hnl & Hhd & Hlong).
  apply head_Some_elem_of, elem_of_exec_dirAndExt in Hhd
    as (d & e & -> & Hd & He & Hnle & ->).
  exists v, n, d, e. split; [|split].
  - cbn [fst snd]. change (String.length "") with O.
    rewrite str_take_all. done.
  - done.
  - intros v' n' d' e' (Hs' & Hv' & Hdig' & Hn' & Hnl' & Hd' & He' & Hnle').
    destruct (decide (String.length n' ≤ String.length n)%nat); [done|].
    rewrite Hs in Hs'.
    apply digit_run_unique in Hs' as [<- Hs']; [|done..].
    specialize (Hlong n' ("." +:+ d' +:+ "." +:+ e') Hn' Hnl' Hs' ltac:(lia)).
    assert (("", <[4%nat:=Some e']> (<[3%nat:=Some d']>
               (<[2%nat:=Some n']> (<[1%nat:=Some v]> (noCaps (versionAndName dirAndExt))))))
            ∈ @nil thread) as []%elem_of_nil.
    rewrite <- Hlong.
    apply elem_of_exec_dirAndExt. by exists d', e'.
Qed.

Lemma searchFrom_migratePattern_complete (s v n d e : string) :
  canonicalSplit s v n d e → is_Some (searchFrom s migratePattern s).
Proof.
  intros (-> & Hv & Hdig & Hn & Hnl & Hd & He & Hnle).
  rewrite migratePattern_unfold. unfold versionAndName at 1.
  rewrite searchFrom_anchored. fold (versionAndName dirAndExt).
  set (caps := noCaps (versionAndName dirAndExt)).
  assert (("", <[4%nat:=Some e]> (<[3%nat:=Some d]>
             (<[2%nat:=Some n]> (<[1%nat:=Some v]> caps))))
          ∈ exec (v +:+ "_" +:+ n +:+ "." +:+ d +:+ "." +:+ e)
              (versionAndName dirAndExt)
              (v +:+ "_" +:+ n +:+ "." +:+ d +:+ "." +:+ e, caps)) as Hin.
  { apply elem_of_versionAndName; try done.
    apply elem_of_exec_dirAndExt. by exists d, e. }
  destruct (exec _ _ _) as [|t' l]; [by apply elem_of_nil in Hin|].
  by eexists.
Qed.

Lemma FindStringSubmatch_migratePattern (s : string) (m : list string) :
  FindStringSubmatch migratePattern s = Some m ↔
  ∃ v n d e,
    m = [s; v; n; d; e]
    ∧ canonicalSplit s v n d e
    ∧ ∀ v' n' d' e', canonicalSplit s v' n' d' e' →
                     (String.length n' ≤ String.length n)%nat.
Proof.
  unfold FindStringSubmatch. split.
  - destruct (searchFrom _ _ _) as [caps|] eqn:Hs; [|done].
    intros [= <-].
    apply searchFrom_migratePattern in Hs as (v & n & d & e & -> & ? & ?).
    by exists v, n, d, e.
  - intros (v & n & d & e & -> & Hsplit & Hlong).
    destruct (searchFrom_migratePattern_complete _ _ _ _ _ Hsplit) as [caps Hs].
    rewrite Hs.
    apply searchFrom_migratePattern in Hs as (v' & n' & d' & e' & -> & Hsplit' & Hlong').
    destruct (canonicalSplit_unique _ _ _ _ _ _ _ _ _ Hsplit Hsplit')
      as (-> & -> & -> & ->); [|done].
    specialize (Hlong _ _ _ _ Hsplit'). specialize (Hlong' _ _ _ _ Hsplit). lia.
Qed.

(** ** The direction-token pattern *)

Lemma migrationPrefixRe_unfold : migrationPrefixRe = versionAndName dirAndOptExt.
Proof. done. Qed.

Lemma elem_of_exec_Quest input (r : Regexp) (t t' : thread) :
  t' ∈ exec input (Quest r) t ↔ t' ∈ exec input r t ∨ t' = t.
Proof. simpl. by rewrite elem_of_app, list_elem_of_singleton. Qed.

Lemma elem_of_exec_dirAndOptExt input (x : string) caps (t' : thread) :
  t' ∈ exec input dirAndOptExt (x, caps) ↔
  ∃ d, (d = "up" ∨ d = "down")
       ∧ ((x = "." +:+ d ∧ t' = ("", <[3%nat := Some d]> caps))
          ∨ ∃ e, x = "." +:+ d +:+ "." +:+ e ∧ Str.forallb notNL e = true
                 ∧ t' = ("", <[4%nat := Some e]> (<[3%nat := Some d]> caps))).
Proof.
  unfold dirAndOptExt.
  repeat setoid_rewrite elem_of_exec_Concat.
  setoid_rewrite elem_of_exec_Quest.
  repeat setoid_rewrite elem_of_exec_Concat.
  repeat setoid_rewrite elem_of_exec_Capture.
  setoid_rewrite elem_of_exec_EndText.
  setoid_rewrite elem_of_exec_Star_notNL.
  setoid_rewrite elem_of_exec_upOrDown.
  repeat setoid_rewrite elem_of_exec_Literal.
  split.
  - intros ([s1 c1] & ([s2 c2] & ([s3 c3] & [Ht' Hend] & Hopt)
             & ([s6 c6] & Hm2 & (d & Hd & Hm6 & Hc6))) & [Hx Hc1]).
    exists d. split; [done|].
    destruct Hopt as [([s4 c4] & ([s5 c5] & Hm3 & (e & He & Hnl & Hc5))
                       & [Hm4 Hc4]) | Hm3];
      cbn [fst snd] in *; simplify_eq.
    + right. exists e. rewrite str_app_nil_r.
      rewrite (str_take_app d (String "." e)).
      change (String.length "") with O. rewrite str_take_all. done.
    + left. rewrite str_app_nil_r.
      change (String.length "") with O. rewrite str_take_all. done.
  - intros (d & Hd & [[-> ->] | (e & -> & Hnl & ->)]).
    + exists (d, caps). split; [|done].
      exists ("", <[3%nat:=Some d]> caps). split.
      * exists ("", <[3%nat:=Some d]> caps). split; [done|]. by right.
      * exists ("", caps). cbn [fst snd]. change (String.length "") with O.
        rewrite str_take_all. split; [done|]. exists d.
        by rewrite str_app_nil_r.
    + exists (d +:+ "." +:+ e, caps). split; [|done].
      exists ("." +:+ e, <[3%nat:=Some d]> caps). split.
      * exists ("", <[4%nat:=Some e]> (<[3%nat:=Some d]> caps)).
        split; [done|]. left.
        exists (e, <[3%nat:=Some d]> caps). split; [|done].
        exists ("", <[3%nat:=Some d]> caps). cbn [fst snd].
        change (String.length "") with O. rewrite str_take_all.
        split; [done|]. exists e. by rewrite str_app_nil_r.
      * exists ("." +:+ e, caps). cbn [fst snd].
        rewrite (str_take_app d ("." +:+ e)). split; [done|]. by exists d.
Qed.

Lemma elem_of_exec_dirAndOptExt_split input (x : string) caps (t' : thread) :
  t' ∈ exec input dirAndOptExt (x, caps) →
  ∃ d y, x = "." +:+ d +:+ y ∧ (d = "up" ∨ d = "down")
         ∧ (y = "" ∨ ∃ e, y = "." +:+ e ∧ Str.forallb notNL e = true)
         ∧ t' = ("", match extGroup y with
                     | Some e => <[4%nat := Some e]> (<[3%nat := Some d]> caps)
                     | None => <[3%nat := Some d]> caps
                     end).
Proof.
  intros (d & Hd & [[-> ->] | (e & -> & Hnl & ->)])%elem_of_exec_dirAndOptExt.
  - exists d, "". rewrite str_app_nil_r. split_and!; auto.
  - exists d, ("." +:+ e). split_and!; eauto.
Qed.

Lemma exec_dirAndOptExt_nonempty input (d x : string) caps :
  (d = "up" ∨ d = "down") →
  (x = "" ∨ ∃ e, x = "." +:+ e ∧ Str.forallb notNL e = true) →
  exec input dirAndOptExt ("." +:+ d +:+ x, caps) ≠ [].
Proof.
  intros Hd Hx Hnil.
  assert (∃ t', t' ∈ exec input dirAndOptExt ("." +:+ d +:+ x, caps))
    as [t' Ht'].
  { destruct Hx as [-> | (e & -> & Hnl)]; eexists;
      apply elem_of_exec_dirAndOptExt; exists d; (split; [done|]).
    - left. by rewrite str_app_nil_r.
    - right. by exists e. }
  rewrite Hnil in Ht'. by apply elem_of_nil in Ht'.
Qed.

Lemma searchFrom_migrationPrefixRe (s : string) caps :
  searchFrom s migrationPrefixRe s = Some caps →
  ∃ v n d x,
    caps = [Some s; Some v; Some n; Some d; extGroup x]
    ∧ prefixSplit s v n d x
    ∧ ∀ v' n' d' x', prefixSplit s v' n' d' x' →
                     (String.length n' ≤ String.length n)%nat.
Proof.
  rewrite migrationPrefixRe_unfold. unfold versionAndName at 1.
  rewrite searchFrom_anchored. fold (versionAndName dirAndOptExt).
  destruct (head _) as [t'|] eqn:Hhd; [|done]. intros [= <-].
  apply head_versionAndName in Hhd
    as (v & n & x & Hs & Hv & Hdig & Hn & Hnl & Hhd & Hlong).
  apply head_Some_elem_of, elem_of_exec_dirAndOptExt_split in Hhd
    as (d & y & -> & Hd & Hy & ->).
  exists v, n, d, y. split; [|split].
  - cbn [fst snd]. change (String.length "") with O.
    rewrite str_take_all. by destruct y.
  - done.
  - intros v' n' d' y' (Hs' & Hv' & Hdig' & Hn' & Hnl' & Hd' & Hy').
    destruct (decide (String.length n' ≤ String.length n)%nat); [done|].
    rewrite Hs in Hs'.
    apply digit_run_unique in Hs' as [<- Hs']; [|done..].
    specialize (Hlong n' ("." +:+ d' +:+ y') Hn' Hnl' Hs' ltac:(lia)).
    by apply exec_dirAndOptExt_nonempty in Hlong.
Qed.

Lemma searchFrom_migrationPrefixRe_complete (s v n d x : string) :
  prefixSplit s v n d x → is_Some (searchFrom s migrationPrefixRe s).
Proof.
  intros (-> & Hv & Hdig & Hn & Hnl & Hd & Hx).
  rewrite migrationPrefixRe_unfold. unfold versionAndName at 1.
  rewrite searchFrom_anchored. fold (versionAndName dirAndOptExt).
  set (caps := noCaps (versionAndName dirAndOptExt)).
  destruct (exec (v +:+ "_" +:+ n +:+ "." +:+ d +:+ x) dirAndOptExt
              ("." +:+ d +:+ x, <[2%nat:=Some n]> (<[1%nat:=Some v]> caps)))
    as [|t' l] eqn:Hex; [by apply exec_dirAndOptExt_nonempty in Hex|].
  assert (t' ∈ exec (v +:+ "_" +:+ n +:+ "." +:+ d +:+ x)
                 (versionAndName dirAndOptExt)
                 (v +:+ "_" +:+ n +:+ "." +:+ d +:+ x, caps)) as Hin.
  { apply elem_of_versionAndName; try done. rewrite Hex. set_solver. }
  destruct (exec _ (versionAndName _) _) as [|t'' l'];
    [by apply elem_of_nil in Hin|].
  by eexists.
Qed.

(** The direction token is only looked for after a leading digit run and
    an underscore. *)
Lemma hasDirection_leading_digits (name : string) :
  hasDirection name = true →
  ∃ v rest, name = v +:+ "_" +:+ rest
            ∧ v ≠ "" ∧ Str.forallb strconv.isDigit v = true.
Proof.
  unfold hasDirection, prefixMatch, FindStringSubmatch.
  intros H%bool_decide_eq_true.
  destruct (searchFrom _ _ _) as [caps|] eqn:Hs; [|by destruct H].
  apply searchFrom_migrationPrefixRe in Hs
    as (v & n & d & x & _ & (-> & Hv & Hdig & _) & _).
  by exists v, (n +:+ "." +:+ d +:+ x).
Qed.

Lemma canonicalSplit_prefixSplit (s v n d e : string) :
  canonicalSplit s v n d e → prefixSplit s v n d ("." +:+ e).
Proof.
  intros (? & ? & ? & ? & ? & ? & ? & ?). split_and!; eauto.
Qed.

(** On a canonical filename the direction-token pattern finds either the
    same extension part, or none. *)
Lemma extPartOpt_canonical (name v n d e : string) :
  matches name = Some [name; v; n; d; e] →
  hasDirection name = true ∧ (extPartOpt name = e ∨ extPartOpt name = "").
Proof.
  intros (v0 & n0 & d0 & e0 & [= <- <- <- <-] & Hsplit & Hlong)
    %FindStringSubmatch_migratePattern.
  pose proof (canonicalSplit_prefixSplit _ _ _ _ _ Hsplit) as Hpre.
  destruct (searchFrom_migrationPrefixRe_complete _ _ _ _ _ Hpre) as [caps Hs].
  unfold hasDirection, extPartOpt, prefixMatch, FindStringSubmatch.
  rewrite Hs. split; [by apply bool_decide_eq_true|].
  apply searchFrom_migrationPrefixRe in Hs
    as (v' & n' & d' & x' & -> & Hpre' & Hlong').
  destruct Hpre' as (Hs' & Hv' & Hdig' & Hn' & Hnl' & Hd' & [-> | (e' & -> & Hnle')]);
    [by right|].
  destruct e' as [|a e']; [by right|]. left. simpl.
  assert (canonicalSplit name v' n' d' (String a e')) as Hsplit'
    by (by split_and!).
  specialize (Hlong _ _ _ _ Hsplit').
  specialize (Hlong' _ _ _ _ Hpre).
  destruct (canonicalSplit_unique _ _ _ _ _ _ _ _ _ Hsplit Hsplit')
    as (_ & _ & _ & ->); [lia|done].
Qed.

(** ** One iteration of the loop *)

Lemma reports_nil (st : State) : reports st [] = st.
Proof. destruct st. unfold reports. simpl. by rewrite app_nil_r. Qed.

Lemma report_reports (st : State) (vs : list Violation) (v : Violation) :
  report (reports st vs) v = reports st (vs ++ [v]).
Proof. unfold report, reports. simpl. by rewrite app_assoc. Qed.

Section Iteration.

Context (Join : string → string → string).

Lemma firstRecord_addMigration (errs : list Violation) (m : Migration) :
  firstRecord (addMigration (reports initState errs) m) = Some m.
Proof.
  unfold firstRecord, addMigration. simpl. rewrite lookup_empty. simpl.
  rewrite lookup_insert_eq. simpl. by destruct (String.eqb _ _).
Qed.

Lemma applyEntry_init (errs : list Violation) (record : option Migration) :
  lintErrors (applyEntry initState errs record) = errs
  ∧ firstRecord (applyEntry initState errs record) = record.
Proof.
  destruct record as [m|]; simpl; [|done].
  split; [done|]. apply firstRecord_addMigration.
Qed.

Lemma lintFile_decompose (cfg : Config) (st : State) (name : string) :
  lintFile Join cfg st name =
  applyEntry st (lintErrors (lintFile Join cfg initState name))
    (firstRecord (lintFile Join cfg initState name)).
Proof.
  assert (∃ errs record, ∀ st, lintFile Join cfg st name = applyEntry st errs record)
    as (errs & record & Hshape).
  { unfold lintFile. cbv zeta.
    generalize (matches name) (hasDirection name) (isMigrationLike name)
      (finalExtForMatch name) (extPartOpt name) (finalExtension name).
    intros ms hasDir like fext extOpt finalExt.
    destruct (negb (Str.isEmpty (Ext cfg)) && EnforceExt cfg
              && negb (extMatches (Ext cfg) fext extOpt)
              && (bool_decide (is_Some ms) || like || hasDir));
      [destruct (bool_decide (is_Some ms) || negb (StrictPattern cfg))|];
      (destruct ms as [m|];
       [destruct (negb (Str.isEmpty (Ext cfg)) && negb (extMatches _ _ _));
        [|destruct (strconv.ParseInt _) as [err|version];
          [|destruct ((0 <? Digits cfg) && negb (len (m !!! 1%nat) =? Digits cfg))]]
       |destruct (isCandidate _ _ _ _ _ _)]);
      lazymatch goal with
      | |- ∃ errs record, ∀ st, addMigration _ _ = _ =>
          eexists _, (Some _); intros st';
          rewrite <- (reports_nil st') at 1; rewrite ?report_reports;
          exact eq_refl
      | |- _ =>
          eexists _, None; intros st';
          rewrite <- (reports_nil st') at 1; rewrite ?report_reports;
          exact eq_refl
      end. }
  rewrite !Hshape.
  by destruct (applyEntry_init errs record) as [-> ->].
Qed.

Lemma lintEntry_decompose (cfg : Config) (st : State) (entry : DirEntry) :
  lintEntry Join cfg st entry =
  applyEntry st (entryErrors Join cfg entry) (recordOf Join cfg entry).
Proof.
  unfold entryErrors, recordOf, lintEntry.
  destruct (Type_ entry) as [| |[err|[|]]|];
    try apply lintFile_decompose;
    try (change (st = reports st []); by rewrite reports_nil).
  reflexivity.
Qed.

End Iteration.

(** ** Grouping *)

Lemma groupOf_absent (recs : list Migration) (v : Z) :
  v ∉ Version <$> recs → groupOf recs v = {| Up := []; Down := [] |}.
Proof.
  intros Hv. unfold groupOf. f_equal.
  - induction recs as [|m recs IH]; [done|].
    rewrite fmap_cons, not_elem_of_cons in Hv. destruct Hv as [Hne Hv].
    rewrite filter_cons_False by naive_solver. by apply IH.
  - induction recs as [|m recs IH]; [done|].
    rewrite fmap_cons, not_elem_of_cons in Hv. destruct Hv as [Hne Hv].
    rewrite filter_cons_False by naive_solver. by apply IH.
Qed.

Lemma groupOf_snoc_other (recs : list Migration) (m : Migration) (v : Z) :
  v ≠ Version m → groupOf (recs ++ [m]) v = groupOf recs v.
Proof.
  intros Hne. unfold groupOf. rewrite !filter_app.
  rewrite !filter_cons_False by naive_solver.
  rewrite filter_nil. by rewrite !app_nil_r.
Qed.

Lemma groupOf_snoc_up (recs : list Migration) (m : Migration) :
  Direction m = "up" →
  groupOf (recs ++ [m]) (Version m) =
  {| Up := Up (groupOf recs (Version m)) ++ [m];
     Down := Down (groupOf recs (Version m)) |}.
Proof.
  intros Hd. unfold groupOf. rewrite !filter_app. simpl.
  rewrite filter_cons_True by done.
  rewrite (filter_cons_False (λ m0, Version m0 = Version m ∧ Direction m0 ≠ "up"))
    by naive_solver.
  rewrite !filter_nil. by rewrite app_nil_r.
Qed.

Lemma groupOf_snoc_down (recs : list Migration) (m : Migration) :
  Direction m ≠ "up" →
  groupOf (recs ++ [m]) (Version m) =
  {| Up := Up (groupOf recs (Version m));
     Down := Down (groupOf recs (Version m)) ++ [m] |}.
Proof.
  intros Hd. unfold groupOf. rewrite !filter_app. simpl.
  rewrite (filter_cons_True (λ m0, Version m0 = Version m ∧ Direction m0 ≠ "up"))
    by done.
  rewrite filter_cons_False by naive_solver.
  rewrite !filter_nil. by rewrite app_nil_r.
Qed.

Lemma grouped_init : grouped [] initState.
Proof.
  split; simpl.
  - intros v. by rewrite lookup_empty.
  - set_solver.
  - constructor.
Qed.

Lemma grouped_reports (recs : list Migration) (st : State) (vs : list Violation) :
  grouped recs st → grouped recs (reports st vs).
Proof. intros [? ? ?]. by split. Qed.

Lemma grouped_addMigration (recs : list Migration) (st : State) (m : Migration) :
  grouped recs st → grouped (recs ++ [m]) (addMigration st m).
Proof.
  intros [Hlook Hkeys Hnodup]. unfold addMigration.
  pose proof (Hlook (Version m)) as Hm.
  assert (∀ v, v ∈ Version <$> (recs ++ [m]) ↔
               v ∈ Version <$> recs ∨ v = Version m) as Hsnoc.
  { intros v. rewrite fmap_app, elem_of_app. set_solver. }
  split; simpl.
  - intros v. destruct (decide (v = Version m)) as [-> | Hne].
    + rewrite lookup_insert_eq.
      rewrite decide_True by (apply Hsnoc; by right).
      f_equal. rewrite Hm.
      destruct (String.eqb_spec (Direction m) "up") as [Hd | Hd].
      * rewrite groupOf_snoc_up by done.
        case_decide as Hin; [done|]. by rewrite groupOf_absent.
      * rewrite groupOf_snoc_down by done.
        case_decide as Hin; [done|]. by rewrite groupOf_absent.
    + rewrite lookup_insert_ne by done. rewrite Hlook.
      rewrite groupOf_snoc_other by done.
      destruct (decide (v ∈ Version <$> recs ++ [m])) as [Hin1|Hin1],
        (decide (v ∈ Version <$> recs)) as [Hin2|Hin2]; try done; exfalso.
      * apply Hsnoc in Hin1. naive_solver.
      * apply Hin1, Hsnoc. by left.
  - intros v. rewrite Hsnoc, Hm.
    case_decide as Hin; simpl.
    + rewrite Hkeys. split; [by left|]. by intros [? | ->].
    + rewrite elem_of_app, Hkeys, list_elem_of_singleton. done.
  - rewrite Hm. case_decide as Hin; simpl; [done|].
    apply NoDup_app. split; [done|]. split; [|apply NoDup_singleton].
    intros v Hv ->%list_elem_of_singleton. by apply Hkeys in Hv.
Qed.

Section Scan.

Context (Join : string → string → string).

Lemma grouped_applyEntry (recs : list Migration) (st : State)
    (errs : list Violation) (record : option Migration) :
  grouped recs st →
  grouped (recs ++ option_list record) (applyEntry st errs record).
Proof.
  intros Hg. destruct record as [m|]; simpl.
  - by apply grouped_addMigration, grouped_reports.
  - rewrite app_nil_r. by apply grouped_reports.
Qed.

Lemma lintErrors_applyEntry (st : State) (errs : list Violation)
    (record : option Migration) :
  lintErrors (applyEntry st errs record) = lintErrors st ++ errs.
Proof. by destruct record. Qed.

Lemma foldl_lintEntry (cfg : Config) (entries : list DirEntry)
    (recs : list Migration) (st : State) :
  grouped recs st →
  let st' := foldl (lintEntry Join cfg) st entries in
  lintErrors st' = lintErrors st ++ (entries ≫= entryErrors Join cfg)
  ∧ grouped (recs ++ records Join cfg entries) st'.
Proof.
  revert recs st. induction entries as [|e entries IH]; intros recs st Hg; simpl.
  - by rewrite !app_nil_r.
  - rewrite lintEntry_decompose.
    pose proof (grouped_applyEntry recs st (entryErrors Join cfg e)
                  (recordOf Join cfg e) Hg) as Hg'.
    destruct (IH _ _ Hg') as [Herr Hgr]. split.
    + rewrite Herr, lintErrors_applyEntry. by rewrite app_assoc.
    + unfold records in *. simpl.
      destruct (recordOf Join cfg e); simpl in *;
        by rewrite <- ?app_assoc in Hgr.
Qed.

Lemma scan_spec (cfg : Config) (entries : list DirEntry) :
  lintErrors (scan Join cfg entries) = entries ≫= entryErrors Join cfg
  ∧ grouped (records Join cfg entries) (scan Join cfg entries).
Proof.
  apply (foldl_lintEntry cfg entries [] initState grouped_init).
Qed.

End Scan.

(** ** The three parts of the result *)

Lemma strictly_sorted (l : list Z) :
  StronglySorted Z.le l → NoDup l → StronglySorted Z.lt l.
Proof.
  induction 1 as [|x l Hl IH Hx]; intros Hnd; [constructor|].
  apply NoDup_cons in Hnd as [Hnotin Hnd]. constructor; [by apply IH|].
  rewrite Forall_forall in Hx |- *. intros y Hy.
  specialize (Hx y Hy). assert (x ≠ y) by (by intros ->). lia.
Qed.

Lemma distinctVersions_elem_of (recs : list Migration) (v : Z) :
  v ∈ distinctVersions recs ↔ v ∈ Version <$> recs.
Proof.
  unfold distinctVersions. rewrite merge_sort_Permutation.
  apply elem_of_remove_dups.
Qed.

Lemma distinctVersions_sorted (recs : list Migration) :
  StronglySorted Z.lt (distinctVersions recs).
Proof.
  apply strictly_sorted.
  - apply StronglySorted_merge_sort; apply _.
  - unfold distinctVersions. rewrite merge_sort_Permutation.
    apply NoDup_remove_dups.
Qed.

Lemma grouped_sorted_keys (recs : list Migration) (st : State) :
  grouped recs st → merge_sort Z.le (versionKeys st) = distinctVersions recs.
Proof.
  intros [_ Hkeys Hnodup]. unfold distinctVersions.
  apply (Sorted_unique Z.le); try apply Sorted_merge_sort; try apply _.
  rewrite !merge_sort_Permutation.
  apply NoDup_Permutation; [done|apply NoDup_remove_dups|].
  intros v. by rewrite Hkeys, elem_of_remove_dups.
Qed.

Section Result.

Context (Join : string → string → string).

Lemma lintEntries_parts (cfg : Config) (entries : list DirEntry) :
  lintEntries Join cfg entries =
  (entries ≫= entryErrors Join cfg)
  ++ perVersionErrors cfg (records Join cfg entries)
  ++ gapRuleErrors cfg (records Join cfg entries).
Proof.
  unfold lintEntries. cbv zeta.
  destruct (scan_spec Join cfg entries) as [-> Hg].
  rewrite (grouped_sorted_keys _ _ Hg). f_equal. f_equal.
  - unfold perVersionErrors. apply list_bind_ext; [|done]. intros v.
    destruct (decide (v ∈ Version <$> records Join cfg entries)) as [Hin|Hin].
    + rewrite (grouped_lookup _ _ Hg), decide_True by done. done.
    + rewrite (grouped_lookup _ _ Hg), decide_False by done. simpl.
      by rewrite groupOf_absent.
  - unfold gapRuleErrors. destruct (NoGaps cfg); [|done]. simpl.
    case_bool_decide; [done|].
    by destruct (distinctVersions _) as [|? [|? ?]]; simpl in *; try lia.
Qed.

End Result.

(** ** What one file contributes *)

Ltac lintFile_cases cfg name :=
  unfold lintFile; cbv zeta;
  destruct (negb (Str.isEmpty (Ext cfg)) && EnforceExt cfg
            && negb (extMatches (Ext cfg) (finalExtForMatch name) (extPartOpt name))
            && (bool_decide (is_Some (matches name)) || isMigrationLike name
                || hasDirection name));
    [destruct (bool_decide (is_Some (matches name)) || negb (StrictPattern cfg))|];
    (destruct (matches name) as [?m|];
     [destruct (negb (Str.isEmpty (Ext cfg)) && negb (extMatches _ _ _));
      [|destruct (strconv.ParseInt _) as [?err|?version];
        [|destruct ((0 <? Digits cfg) && negb (len _ =? Digits cfg))]]
     |destruct (isCandidate _ _ _ _ _ _)]).

Section PerFile.

Context (Join : string → string → string).

Lemma entryErrors_not_file (cfg : Config) (entry : DirEntry) :
  isFile entry = false →
  recordOf Join cfg entry = None
  ∧ (entryErrors Join cfg entry = []
     ∨ ∃ err, entryErrors Join cfg entry =
              [StatSymlinkFailed (Join (Path cfg) (Name entry)) err]).
Proof.
  unfold isFile, entryErrors, recordOf, lintEntry.
  destruct (Type_ entry) as [| |[err|[|]]|]; try done; eauto.
Qed.

Lemma entryErrors_file (cfg : Config) (entry : DirEntry) :
  isFile entry = true →
  let name := Name entry in
  let fullPath := Join (Path cfg) name in
  entryErrors Join cfg entry =
  (if negb (Str.isEmpty (Ext cfg)) && EnforceExt cfg
      && negb (extMatches (Ext cfg) (finalExtForMatch name) (extPartOpt name))
      && (bool_decide (is_Some (matches name)) || isMigrationLike name
          || hasDirection name)
      && (bool_decide (is_Some (matches name)) || negb (StrictPattern cfg))
   then [ExtMismatch fullPath (Ext cfg) (finalExtForMatch name) (extPartOpt name)]
   else [])
  ++ match matches name with
     | None =>
         if isCandidate name (finalExtForMatch name) (extPartOpt name)
              (isMigrationLike name) (hasDirection name) cfg
         then [UnmatchedFile fullPath] else []
     | Some m =>
         if negb (Str.isEmpty (Ext cfg))
            && negb (extMatches (Ext cfg) (finalExtForMatch name) (m !!! 4%nat))
         then []
         else match strconv.ParseInt (m !!! 1%nat) with
              | inl err => [VersionParseError fullPath err]
              | inr _ =>
                  if (0 <? Digits cfg) && negb (len (m !!! 1%nat) =? Digits cfg)
                  then [DigitsMismatch fullPath (len (m !!! 1%nat)) (Digits cfg)]
                  else []
              end
     end.
Proof.
  intros Hfile name fullPath.
  assert (entryErrors Join cfg entry = lintErrors (lintFile Join cfg initState name))
    as ->.
  { unfold isFile, entryErrors, lintEntry in *.
    by destruct (Type_ entry) as [| |[err|[|]]|]. }
  subst fullPath. lintFile_cases cfg name; reflexivity.
Qed.

Lemma recordOf_file (cfg : Config) (entry : DirEntry) :
  isFile entry = true →
  let name := Name entry in
  recordOf Join cfg entry =
  match matches name with
  | None => None
  | Some m =>
      if negb (Str.isEmpty (Ext cfg))
         && negb (extMatches (Ext cfg) (finalExtForMatch name) (m !!! 4%nat))
      then None
      else match strconv.ParseInt (m !!! 1%nat) with
           | inl _ => None
           | inr version =>
               Some {| MPath := Join (Path cfg) name; FileName := name;
                       VersionStr := m !!! 1%nat; Version := version;
                       NamePart := m !!! 2%nat; Direction := m !!! 3%nat;
                       ExtPart := m !!! 4%nat;
                       FinalExt := finalExtension name |}
           end
  end.
Proof.
  intros Hfile name.
  assert (recordOf Join cfg entry = firstRecord (lintFile Join cfg initState name))
    as ->.
  { unfold isFile, recordOf, lintEntry in *.
    by destruct (Type_ entry) as [| |[err|[|]]|]. }
  lintFile_cases cfg name; try reflexivity;
    match goal with
    | |- firstRecord (addMigration ?st ?m) = _ =>
        apply (firstRecord_addMigration (lintErrors st) m)
    end.
Qed.

End PerFile.

(** ** The version token *)

Lemma isDigit_digitVal (a : ascii) :
  strconv.isDigit a = true → 0 ≤ strconv.digitVal a ≤ 9.
Proof.
  destruct a as [[] [] [] [] [] [] [] []]; try discriminate;
    intros _; vm_compute; split; discriminate.
Qed.

Lemma isDigit_not_sign (a : ascii) :
  strconv.isDigit a = true → Ascii.eqb a "+" = false ∧ Ascii.eqb a "-" = false.
Proof.
  intros H. split; apply Ascii.eqb_neq; intros ->; discriminate.
Qed.

Lemma readDigits_digits (acc : Z) (s : string) :
  Str.forallb strconv.isDigit s = true →
  strconv.readDigits acc s = Some (decimalFrom acc s).
Proof.
  revert acc. induction s as [|a t IH]; intros acc H; simpl in *; [done|].
  apply andb_prop in H as [-> H]. by apply IH.
Qed.

Lemma decimalFrom_ge (acc : Z) (s : string) :
  Str.forallb strconv.isDigit s = true → 0 ≤ acc → acc ≤ decimalFrom acc s.
Proof.
  revert acc. induction s as [|a t IH]; intros acc H Hacc; simpl in *; [lia|].
  apply andb_prop in H as [Ha H]. apply isDigit_digitVal in Ha.
  specialize (IH (acc * 10 + strconv.digitVal a) H). lia.
Qed.

Lemma decimalValue_leading_zeros (z s : string) :
  Str.forallb (Ascii.eqb "0") z = true →
  decimalValue (z +:+ s) = decimalValue s.
Proof.
  unfold decimalValue. induction z as [|a z IH]; intros H; [done|].
  cbn [Str.forallb] in H. apply andb_prop in H as [Ha H].
  apply Ascii.eqb_eq in Ha as <-.
  change (decimalFrom 0 (String "0" z +:+ s))
    with (decimalFrom 0 (z +:+ s)).
  by apply IH.
Qed.

Lemma ParseInt_digits (s : string) :
  s ≠ "" → Str.forallb strconv.isDigit s = true →
  strconv.ParseInt s =
  if 2 ^ 63 <=? decimalValue s then inl (strconv.ErrRange s)
  else inr (decimalValue s).
Proof.
  intros Hne Hdig. destruct s as [|a t]; [done|].
  unfold strconv.ParseInt.
  pose proof Hdig as Hdig'. simpl in Hdig'.
  apply andb_prop in Hdig' as [Ha _].
  destruct (isDigit_not_sign a Ha) as [-> ->]. cbn [orb negb andb].
  rewrite readDigits_digits by done. fold (decimalValue (String a t)).
  by destruct (2 ^ 63 <=? _).
Qed.

(** ** Which rule emits what *)

Lemma groupErrors_rule (cfg : Config) (version : Z) (group : VersionGroup)
    (x : Violation) :
  x ∈ groupErrors cfg version group →
  ruleOf x = PerVersion ∧ versionOf x = Some version.
Proof.
  unfold groupErrors. rewrite !elem_of_app.
  intros [H | [H | [H | H]]].
  - case_bool_decide; set_solver.
  - case_bool_decide; set_solver.
  - destruct (RequireDown cfg); [|set_solver].
    apply elem_of_app in H as [H | H];
      destruct (_ && _); set_solver.
  - destruct (StrictNameMatch cfg); [|set_solver].
    destruct (Up group) as [|up [|? ?]]; try set_solver.
    destruct (Down group) as [|down [|? ?]]; try set_solver.
    destruct (_ || _); set_solver.
Qed.

Lemma gapErrors_rule (keys : list Z) (x : Violation) :
  x ∈ gapErrors keys → ruleOf x = GapRule.
Proof.
  induction keys as [|prev [|cur rest] IH]; simpl; try set_solver.
  rewrite elem_of_app. intros [H | H]; [|by apply IH].
  unfold gapError in H. destruct (negb _); [|set_solver].
  destruct (_ =? _); set_solver.
Qed.

Section Rules.

Context (Join : string → string → string).

Lemma entryErrors_rule (cfg : Config) (entry : DirEntry) (x : Violation) :
  x ∈ entryErrors Join cfg entry → ruleOf x = PerEntry.
Proof.
  destruct (isFile entry) eqn:Hfile.
  - rewrite (entryErrors_file Join cfg entry Hfile). cbv zeta.
    rewrite elem_of_app. intros [H | H].
    + destruct (_ && _); set_solver.
    + destruct (matches _) as [m|]; [|destruct (isCandidate _ _ _ _ _ _); set_solver].
      destruct (_ && _); [set_solver|].
      destruct (strconv.ParseInt _); [set_solver|].
      destruct (_ && _); set_solver.
  - destruct (entryErrors_not_file Join cfg entry Hfile) as [_ [-> | [err ->]]];
      set_solver.
Qed.

Lemma perVersionErrors_rule (cfg : Config) (recs : list Migration) (x : Violation) :
  x ∈ perVersionErrors cfg recs → ruleOf x = PerVersion.
Proof.
  unfold perVersionErrors.
  intros (v & Hx & _)%list_elem_of_bind.
  by apply groupErrors_rule in Hx as [? _].
Qed.

Lemma gapRuleErrors_rule (cfg : Config) (recs : list Migration) (x : Violation) :
  x ∈ gapRuleErrors cfg recs → ruleOf x = GapRule.
Proof.
  unfold gapRuleErrors. destruct (NoGaps cfg); [apply gapErrors_rule|set_solver].
Qed.

Lemma filter_none {A} (P : A → Prop) `{!∀ x, Decision (P x)} (l : list A) :
  (∀ x, x ∈ l → ¬ P x) → filter P l = [].
Proof.
  induction l as [|x l IH]; intros Hl; [done|].
  rewrite filter_cons_False by (apply Hl; set_solver).
  apply IH. intros y Hy. apply Hl. set_solver.
Qed.

Lemma filter_all {A} (P : A → Prop) `{!∀ x, Decision (P x)} (l : list A) :
  (∀ x, x ∈ l → P x) → filter P l = l.
Proof.
  induction l as [|x l IH]; intros Hl; [done|].
  rewrite filter_cons_True by (apply Hl; set_solver).
  f_equal. apply IH. intros y Hy. apply Hl. set_solver.
Qed.

(** The violations of one rule, selected by [P], come from that rule's
    part of the result. *)
Lemma filter_rule_nil (P : Violation → bool) (r : Rule) (l : list Violation) :
  (∀ x, P x = true → ruleOf x = r) →
  (∀ x, x ∈ l → ruleOf x ≠ r) →
  filter (λ x, P x = true) l = [].
Proof.
  intros HP Hl. induction l as [|x l IH]; [done|].
  rewrite filter_cons_False.
  - apply IH. intros y Hy. apply Hl. set_solver.
  - intros Hx. apply (Hl x); [set_solver|by apply HP].
Qed.

Lemma filter_lintEntries_PerEntry (P : Violation → bool) (cfg : Config)
    (entries : list DirEntry) :
  (∀ x, P x = true → ruleOf x = PerEntry) →
  filter (λ x, P x = true) (lintEntries Join cfg entries) =
  entries ≫= λ e, filter (λ x, P x = true) (entryErrors Join cfg e).
Proof.
  intros HP. rewrite lintEntries_parts, !filter_app.
  rewrite (filter_rule_nil P PerEntry (perVersionErrors _ _)); [|done|].
  2:{ intros x Hx%perVersionErrors_rule. by rewrite Hx. }
  rewrite (filter_rule_nil P PerEntry (gapRuleErrors _ _)); [|done|].
  2:{ intros x Hx%gapRuleErrors_rule. by rewrite Hx. }
  rewrite !app_nil_r.
  induction entries as [|e entries IH]; [done|].
  by rewrite !bind_cons, filter_app, IH.
Qed.

Lemma filter_lintEntries_PerVersion (P : Violation → bool) (cfg : Config)
    (entries : list DirEntry) :
  (∀ x, P x = true → ruleOf x = PerVersion) →
  filter (λ x, P x = true) (lintEntries Join cfg entries) =
  filter (λ x, P x = true) (perVersionErrors cfg (records Join cfg entries)).
Proof.
  intros HP. rewrite lintEntries_parts, !filter_app.
  rewrite (filter_rule_nil P PerVersion (entries ≫= entryErrors Join cfg));
    [|done|].
  2:{ intros x (e & Hx & _)%list_elem_of_bind.
      apply entryErrors_rule in Hx. by rewrite Hx. }
  rewrite (filter_rule_nil P PerVersion (gapRuleErrors _ _)); [|done|].
  2:{ intros x Hx%gapRuleErrors_rule. by rewrite Hx. }
  by rewrite app_nil_r.
Qed.

Lemma filter_lintEntries_GapRule (cfg : Config) (entries : list DirEntry) :
  filter (λ x, ruleOf x = GapRule) (lintEntries Join cfg entries) =
  gapRuleErrors cfg (records Join cfg entries).
Proof.
  rewrite lintEntries_parts, !filter_app.
  rewrite (filter_none _ (entries ≫= entryErrors Join cfg)).
  2:{ intros x (e & Hx & _)%list_elem_of_bind.
      apply entryErrors_rule in Hx. by rewrite Hx. }
  rewrite (filter_none _ (perVersionErrors _ _)).
  2:{ intros x Hx%perVersionErrors_rule. by rewrite Hx. }
  simpl. apply filter_all. intros x. apply gapRuleErrors_rule.
Qed.

End Rules.

(* ===================================================================== *)
(** * The claims of the specification *)

(** ** Joining the directory and a name *)

Lemma slashJoin_examples :
  slashJoin "m" "1_a.up.sql" = "m/1_a.up.sql"
  ∧ slashJoin "db/migrations" "1_a.up.sql" = "db/migrations/1_a.up.sql"
  ∧ slashJoin "." "1_a.up.sql" = "1_a.up.sql"
  ∧ slashJoin "/" "1_a.up.sql" = "/1_a.up.sql"
  ∧ slashJoin "m/" "1_a.up.sql" = "m/1_a.up.sql"
  ∧ slashJoin "./m//x/.." "1_a.up.sql" = "m/1_a.up.sql"
  ∧ slashJoin "../m" "1_a.up.sql" = "../m/1_a.up.sql"
  ∧ slashJoin "m/../.." "1_a.up.sql" = "../1_a.up.sql"
  ∧ slashJoin "/../m" "1_a.up.sql" = "/m/1_a.up.sql"
  ∧ slashJoin "" "1_a.up.sql" = "1_a.up.sql".
Proof. by vm_compute. Qed.

(** ** C1: the canonical pattern *)

(** C1, as the code has it.  [migratePattern] matches a filename exactly
    when it splits as [<digits>_<name>.<up|down>.<ext>] with a non-empty
    digit run and non-empty name and extension parts that hold no newline
    (so [001_.up.sql] and [001_x.up.] do not match), and the submatches are
    those of the split with the longest name: the name group is greedy.
    For [1_a.up.down.sql] the name is [a.up], the direction [down] and the
    extension part [sql]. *)
Theorem C1_canonical_match_takes_longest_name :
  (∀ s m,
     matches s = Some m ↔
     ∃ v n d e,
       m = [s; v; n; d; e]
       ∧ canonicalSplit s v n d e
       ∧ ∀ v' n' d' e', canonicalSplit s v' n' d' e' →
                        (String.length n' ≤ String.length n)%nat)
  ∧ matches "001_.up.sql" = None
  ∧ matches "001_x.up." = None
  ∧ matches "1_a.up.down.sql"
    = Some ["1_a.up.down.sql"; "1"; "a.up"; "down"; "sql"].
Proof.
  split; [|by vm_compute].
  intros s m. apply FindStringSubmatch_migratePattern.
Qed.

(** C1 as stated fails: [1_a.up.down.sql] also splits with the shorter name
    [a], direction [up] and extension part [down.sql], yet the match takes
    the name [a.up], the direction [down] and the extension part [sql];
    and a name that holds a newline does not match at all. *)
Lemma C1_shortest_name_is_not_taken :
  canonicalSplit "1_a.up.down.sql" "1" "a" "up" "down.sql"
  ∧ matches "1_a.up.down.sql"
    = Some ["1_a.up.down.sql"; "1"; "a.up"; "down"; "sql"]
  ∧ matches ("1_a" +:+ String "010" "b.up.sql") = None.
Proof.
  split; [|by vm_compute].
  unfold canonicalSplit. split_and!; try done. by left.
Qed.

(** ** C2: the direction token *)

Lemma migrationLikeRe_unfold :
  migrationLikeRe
  = Concat BeginText (Concat digits1 (Concat (Literal "_") likeRest)).
Proof. done. Qed.

Lemma isMigrationLike_leading_digits (name : string) :
  isMigrationLike name = true → startsWithVersion name.
Proof.
  unfold isMigrationLike, MatchString. rewrite migrationLikeRe_unfold.
  rewrite searchFrom_anchored.
  destruct (head _) as [t'|] eqn:Hhd; [|done]. intros _.
  apply head_Some_elem_of in Hhd. rewrite exec_BeginText_here in Hhd.
  apply elem_of_exec_Concat in Hhd as (m & Hrest & Hdig).
  apply elem_of_exec_digits1 in Hdig as (v & Hv & Hs & Hd & _).
  apply elem_of_exec_Concat in Hrest as (m' & _ & Hlit).
  apply elem_of_exec_Literal in Hlit as [Hm _].
  simpl in Hs. exists v, m'.1. rewrite Hs, Hm. done.
Qed.

(** C2, as the code has it.  [hasDirection] is true only for a filename
    that begins with a digit run and an underscore, and so is
    [isMigrationLike]: the direction-token pattern requires the leading
    version just as the loose pattern does, and [NAME.up] has no direction
    token.  What the direction-token pattern does not require is an
    extension after the direction: [1_a.up] has a direction token and is
    not migration-like.  (Nor does the loose pattern imply a direction
    token: it is not anchored at the end, so [1_a.up.sql] followed by a
    newline is migration-like and has no direction token.) *)
Theorem C2_direction_token_needs_leading_version :
  (∀ name, hasDirection name = true → startsWithVersion name)
  ∧ (∀ name, isMigrationLike name = true → startsWithVersion name)
  ∧ hasDirection "NAME.up" = false
  ∧ hasDirection "1_a.up" = true
  ∧ isMigrationLike "1_a.up" = false
  ∧ isMigrationLike ("1_a.up.sql" +:+ String "010" "") = true
  ∧ hasDirection ("1_a.up.sql" +:+ String "010" "") = false.
Proof.
  split; [|split]; [| |by vm_compute].
  - intros name H. by apply hasDirection_leading_digits.
  - intros name H. by apply isMigrationLike_leading_digits.
Qed.

Lemma C2_witness_versioned_direction_only :
  hasDirection "1_a.up" = true ∧ startsWithVersion "1_a.up".
Proof.
  split; [reflexivity|].
  apply (proj1 C2_direction_token_needs_leading_version "1_a.up").
  reflexivity.
Defined.

(** C2 as stated fails: [NAME.up] has no direction token for the code, and
    no filename without a leading digit run and underscore has one. *)
Lemma C2_no_direction_token_without_version :
  hasDirection "NAME.up" = false
  ∧ ¬ ∃ name, ¬ startsWithVersion name ∧ hasDirection name = true.
Proof.
  split; [reflexivity|].
  intros (name & Hno & Hdir). apply Hno.
  by apply hasDirection_leading_digits.
Qed.

(** ** C8: the two modes of [extMatches] *)

Lemma eqb_true_iff (a b : string) : String.eqb a b = true ↔ a = b.
Proof. apply String.eqb_eq. Qed.

(** C8, as the code has it.  An empty filter matches everything; a filter
    that holds a dot matches exactly when the extension part passed to
    [extMatches] equals it; a filter without a dot matches exactly when the
    final extension passed equals it.  For a file, the final extension
    passed is [finalExtForMatch]: the final dot-delimited suffix of the
    name, unless the direction-token pattern finds a direction with no
    extension after it, and then it is empty.  So a filter without a dot
    matches exactly the files whose final suffix equals it and that are not
    of that kind: [gz] matches [name.up.sql.gz], and [down] does not match
    [1_a.up.down].  [000001_a.up.sql.gz] has the extension part [sql.gz],
    which the filter [sql.gz] matches and the filter [sql] does not. *)
Theorem C8_extMatches_dual_mode :
  (∀ finalExt extPart, extMatches "" finalExt extPart = true)
  ∧ (∀ expected finalExt extPart,
       Str.containsByte "." expected = true →
       (extMatches expected finalExt extPart = true ↔ extPart = expected))
  ∧ (∀ expected finalExt extPart,
       expected ≠ "" → Str.containsByte "." expected = false →
       (extMatches expected finalExt extPart = true ↔ finalExt = expected))
  ∧ finalExtension "name.up.sql.gz" = "gz"
  ∧ extMatches "gz" (finalExtForMatch "name.up.sql.gz")
      (extPartOpt "name.up.sql.gz") = true
  ∧ extPartOpt "000001_a.up.sql.gz" = "sql.gz"
  ∧ finalExtForMatch "000001_a.up.sql.gz" = "gz"
  ∧ extMatches "sql.gz" "gz" "sql.gz" = true
  ∧ extMatches "gz" "gz" "sql.gz" = true
  ∧ extMatches "sql.gz" "gz" "gz" = false
  ∧ extMatches "sql" "gz" "sql.gz" = false
  ∧ (∀ name expected extPart,
       expected ≠ "" → Str.containsByte "." expected = false →
       (extMatches expected (finalExtForMatch name) extPart = true ↔
        finalExtension name = expected
        ∧ ¬ (hasDirection name = true ∧ extPartOpt name = "")))
  ∧ (∀ name v n d e expected,
       matches name = Some [name; v; n; d; e] →
       Str.containsByte "." expected = true →
       (extMatches expected (finalExtForMatch name) e = true ↔ e = expected))
  ∧ hasDirection "1_a.up.down" = true
  ∧ extPartOpt "1_a.up.down" = ""
  ∧ finalExtension "1_a.up.down" = "down"
  ∧ extMatches "down" (finalExtForMatch "1_a.up.down") "down" = false.
Proof.
  assert (∀ expected finalExt extPart,
            Str.containsByte "." expected = true →
            (extMatches expected finalExt extPart = true ↔ extPart = expected))
    as Hdotted.
  { intros expected finalExt extPart Hdot. unfold extMatches.
    destruct expected as [|a t]; [done|]. cbn [Str.isEmpty].
    rewrite Hdot. apply eqb_true_iff. }
  assert (∀ expected finalExt extPart,
            expected ≠ "" → Str.containsByte "." expected = false →
            (extMatches expected finalExt extPart = true ↔ finalExt = expected))
    as Hplain.
  { intros expected finalExt extPart Hne Hdot. unfold extMatches.
    destruct expected as [|a t]; [done|]. cbn [Str.isEmpty].
    rewrite Hdot. apply eqb_true_iff. }
  split_and!; try done; try by vm_compute.
  - intros name expected extPart Hne Hdot.
    rewrite (Hplain expected _ extPart Hne Hdot). unfold finalExtForMatch.
    destruct (hasDirection name) eqn:Hdir; cbn [andb].
    + destruct (extPartOpt name) as [|a t] eqn:Hopt; cbn [Str.isEmpty].
      * split; [by intros <-|]. intros [_ Hno]. by destruct Hno.
      * split; [|by intros [? _]]. intros ?. split; [done|]. by intros [_ ?].
    + split; [|by intros [? _]]. intros ?. split; [done|]. by intros [? _].
  - intros name v n d e expected _ Hdot. apply Hdotted. done.
Qed.

Lemma C8_witness_filters :
  (extMatches "sql.gz" "gz" "sql.gz" = true ↔ "sql.gz" = "sql.gz")
  ∧ (extMatches "gz" "gz" "sql.gz" = true ↔ "gz" = "gz").
Proof.
  split.
  - apply (proj1 (proj2 C8_extMatches_dual_mode)). reflexivity.
  - apply (proj1 (proj2 (proj2 C8_extMatches_dual_mode))); [discriminate|reflexivity].
Defined.

(** C8 as stated fails for a file: [1_a.up.down] is canonical with the
    extension part [down], and its final dot-delimited suffix is [down],
    yet the filter [down] does not match it, because its final extension
    for matching is empty; with that filter the file joins no group, so a
    run with require-down on reports nothing. *)
Lemma C8_final_suffix_after_direction_is_not_matched :
  matches "1_a.up.down" = Some ["1_a.up.down"; "1"; "a"; "up"; "down"]
  ∧ finalExtension "1_a.up.down" = "down"
  ∧ finalExtForMatch "1_a.up.down" = ""
  ∧ extMatches "down" (finalExtForMatch "1_a.up.down") "down" = false
  ∧ Lint slashJoin
      {| Path := "m"; Ext := "down"; EnforceExt := false; NoGaps := false;
         Digits := 0; RequireDown := true; StrictNameMatch := false;
         StrictPattern := false |}
      (Listing [regularFile "1_a.up.down"])
    = inr [].
Proof. by vm_compute. Qed.

(** ** C10: the digit-width check *)

Lemma Lint_Listing (Join : string → string → string) (cfg : Config)
    (entries : list DirEntry) (errs : list Violation) :
  Lint Join cfg (Listing entries) = inr errs ↔
  errs = lintEntries Join cfg entries.
Proof. simpl. split; [by intros [= <-] | by intros ->]. Qed.

Lemma entryErrors_DigitsMismatch (Join : string → string → string)
    (cfg : Config) (entry : DirEntry) (x : Violation) :
  x ∈ entryErrors Join cfg entry → isDigitsMismatch x = true →
  0 < Digits cfg
  ∧ ∃ l, x = DigitsMismatch (Join (Path cfg) (Name entry)) l (Digits cfg)
         ∧ l ≠ Digits cfg.
Proof.
  destruct (isFile entry) eqn:Hfile.
  - rewrite (entryErrors_file Join cfg entry Hfile). cbv zeta.
    rewrite elem_of_app. intros [H | H] Hx.
    + destruct (_ && _); [|set_solver].
      apply list_elem_of_singleton in H as ->. done.
    + destruct (matches _) as [m|].
      2:{ destruct (isCandidate _ _ _ _ _ _); [|set_solver].
          apply list_elem_of_singleton in H as ->. done. }
      destruct (_ && _); [set_solver|].
      destruct (strconv.ParseInt _).
      { apply list_elem_of_singleton in H as ->. done. }
      destruct (0 <? Digits cfg) eqn:Hpos; [|set_solver].
      destruct (len _ =? Digits cfg) eqn:Hlen; [set_solver|].
      apply list_elem_of_singleton in H as ->. split; [lia|].
      eexists. split; [done|]. lia.
  - destruct (entryErrors_not_file Join cfg entry Hfile) as [_ [-> | [err ->]]];
      [set_solver|].
    intros ->%list_elem_of_singleton. done.
Qed.

(** C10.  With a digit width of zero [Lint] returns no "digits mismatch"
    violation, whatever the directory holds; every "digits mismatch" that
    it returns comes with a strictly positive configured width, which the
    length of the version string differs from. *)
Theorem C10_digits_check_needs_positive_width
    (Join : string → string → string) (cfg : Config) (dir : Directory)
    (errs : list Violation) :
  Lint Join cfg dir = inr errs →
  (Digits cfg = 0 → filter (λ x, isDigitsMismatch x = true) errs = [])
  ∧ ∀ x, x ∈ errs → isDigitsMismatch x = true →
         0 < Digits cfg
         ∧ ∃ path l, x = DigitsMismatch path l (Digits cfg) ∧ l ≠ Digits cfg.
Proof.
  intros HLint.
  assert (∀ x, x ∈ errs → isDigitsMismatch x = true →
               0 < Digits cfg
               ∧ ∃ path l, x = DigitsMismatch path l (Digits cfg)
                           ∧ l ≠ Digits cfg) as Hpos.
  { destruct dir as [| | | |entries]; try discriminate.
    apply Lint_Listing in HLint as ->.
    intros x Hx Hdm.
    assert (x ∈ filter (λ x, isDigitsMismatch x = true)
                  (lintEntries Join cfg entries)) as Hin
      by (by apply list_elem_of_filter).
    rewrite filter_lintEntries_PerEntry in Hin by (by intros []).
    apply list_elem_of_bind in Hin as (e & [_ Hin]%list_elem_of_filter & _).
    destruct (entryErrors_DigitsMismatch Join cfg e x Hin Hdm)
      as [? (l & -> & ?)].
    eauto. }
  split; [|done].
  intros Hzero. apply filter_none. intros x Hx Hdm.
  destruct (Hpos x Hx Hdm) as [? _]. lia.
Qed.

Lemma C10_witness_default_width :
  Lint slashJoin (defaultConfig "m") (Listing [regularFile "001_create.up.sql"])
  = inr []
  ∧ (Digits (defaultConfig "m") = 0 →
     filter (λ x, isDigitsMismatch x = true) [] = []).
Proof.
  split; [by vm_compute|].
  apply (C10_digits_check_needs_positive_width slashJoin (defaultConfig "m")
           (Listing [regularFile "001_create.up.sql"]) []).
  by vm_compute.
Defined.

(** ** C3: the extension-enforcement rule *)

(** [x] is of a kind that the list, of at most one element, does not hold. *)
Ltac other_kind :=
  first [ by intros ?%elem_of_nil
        | intros ?%list_elem_of_singleton; subst; discriminate ].

Lemma isEmpty_false (s : string) : s ≠ "" → Str.isEmpty s = false.
Proof. by destruct s. Qed.

(** C3.  With an extension filter and enforcement on, the per-entry
    violations of a run are those of its entries, entry by entry, and so
    are its "extension mismatch" violations.  A file that is canonical,
    migration-like or has a direction token, and whose extension fails
    [extMatches], is reported once: when it is not canonical and
    strict-pattern is off, its one violation is the "extension mismatch";
    when it is not canonical and strict-pattern is on, its one violation is
    the "unmatched file", and it has no "extension mismatch"; when it is
    canonical, its violations are the "extension mismatch" and after it at
    most one violation of its version token, and no "unmatched file". *)
Theorem C3_extension_mismatch_reported_once
    (Join : string → string → string) (cfg : Config)
    (entries : list DirEntry) (errs : list Violation) :
  Lint Join cfg (Listing entries) = inr errs →
  Ext cfg ≠ "" → EnforceExt cfg = true →
  filter (λ x, isExtMismatch x = true) errs
  = entries ≫= (λ e, filter (λ x, isExtMismatch x = true) (entryErrors Join cfg e))
  ∧ filter (λ x, ruleOf x = PerEntry) errs = entries ≫= entryErrors Join cfg
  ∧ ∀ entry,
      isFile entry = true →
      let name := Name entry in
      is_Some (matches name) ∨ isMigrationLike name = true
        ∨ hasDirection name = true →
      extMatches (Ext cfg) (finalExtForMatch name) (extPartOpt name) = false →
      (is_Some (matches name) ∨ StrictPattern cfg = false →
       filter (λ x, isExtMismatch x = true) (entryErrors Join cfg entry)
       = [ExtMismatch (Join (Path cfg) name) (Ext cfg)
            (finalExtForMatch name) (extPartOpt name)])
      ∧ (matches name = None → StrictPattern cfg = true →
         entryErrors Join cfg entry = [UnmatchedFile (Join (Path cfg) name)])
      ∧ (matches name = None → StrictPattern cfg = false →
         entryErrors Join cfg entry
         = [ExtMismatch (Join (Path cfg) name) (Ext cfg)
              (finalExtForMatch name) (extPartOpt name)])
      ∧ (is_Some (matches name) →
         ∃ rest,
           entryErrors Join cfg entry
           = ExtMismatch (Join (Path cfg) name) (Ext cfg)
               (finalExtForMatch name) (extPartOpt name) :: rest
           ∧ (length rest ≤ 1)%nat
           ∧ Forall (λ x, isVersionParseError x = true
                          ∨ isDigitsMismatch x = true) rest).
Proof.
  intros ->%Lint_Listing Hext Henf. split.
  { apply (filter_lintEntries_PerEntry Join isExtMismatch). by intros []. }
  split.
  { rewrite lintEntries_parts, !filter_app.
    rewrite (filter_none _ (perVersionErrors _ _)).
    2:{ intros x Hx%perVersionErrors_rule. by rewrite Hx. }
    rewrite (filter_none _ (gapRuleErrors _ _)).
    2:{ intros x Hx%gapRuleErrors_rule. by rewrite Hx. }
    rewrite !app_nil_r. apply filter_all.
    intros x (e & Hx & _)%list_elem_of_bind. by eapply entryErrors_rule. }
  intros entry Hfile name Hkind Hmis.
  rewrite (entryErrors_file Join cfg entry Hfile). cbv zeta. fold name.
  rewrite (isEmpty_false _ Hext), Henf, Hmis. cbn [negb andb].
  assert (bool_decide (is_Some (matches name)) || isMigrationLike name
          || hasDirection name = true) as ->.
  { destruct Hkind as [H | [-> | ->]].
    - by rewrite (bool_decide_eq_true_2 _ H).
    - by rewrite orb_true_r.
    - by rewrite orb_true_r. }
  cbn [andb]. split_and!.
  - intros Hrep.
    assert (bool_decide (is_Some (matches name)) || negb (StrictPattern cfg) = true)
      as ->.
    { destruct Hrep as [H | ->].
      - by rewrite (bool_decide_eq_true_2 _ H).
      - by rewrite orb_true_r. }
    rewrite filter_app, filter_cons_True, filter_nil by done.
    rewrite filter_none; [done|].
    intros x Hx Hm. revert Hx. repeat case_match; other_kind.
  - intros Hnone Hstrict. rewrite Hnone, Hstrict.
    rewrite bool_decide_eq_false_2 by (by intros [? ?]).
    cbn [orb negb app]. unfold isCandidate.
    rewrite Hstrict, (isEmpty_false _ Hext), Hmis, Henf. cbn [negb andb].
    destruct Hkind as [[? H] | [-> | ->]]; [congruence|done|].
    by rewrite orb_true_r.
  - intros Hnone Hstrict. rewrite Hnone, Hstrict.
    rewrite bool_decide_eq_false_2 by (by intros [? ?]).
    cbn [orb negb app]. unfold isCandidate. by rewrite Hstrict.
  - intros Hsome. rewrite (bool_decide_eq_true_2 _ Hsome). cbn [orb].
    destruct Hsome as [m ->]. eexists. split; [reflexivity|].
    destruct (negb _); [split; [simpl; lia|apply Forall_nil_2]|].
    destruct (strconv.ParseInt _);
      [split; [simpl; lia|]; apply Forall_singleton; by left|].
    destruct (_ && _); [|split; [simpl; lia|apply Forall_nil_2]].
    split; [simpl; lia|]. apply Forall_singleton. by right.
Qed.

Lemma C3_witness_enforced_extension :
  filter (λ x, isExtMismatch x = true)
    (entryErrors slashJoin
       {| Path := "m"; Ext := "sql"; EnforceExt := true; NoGaps := false;
          Digits := 0; RequireDown := false; StrictNameMatch := false;
          StrictPattern := false |}
       (regularFile "000001_a.down.txt"))
  = [ExtMismatch "m/000001_a.down.txt" "sql" "txt" "txt"]
  ∧ entryErrors slashJoin
      {| Path := "m"; Ext := "sql"; EnforceExt := true; NoGaps := false;
         Digits := 0; RequireDown := false; StrictNameMatch := false;
         StrictPattern := true |}
      (regularFile "000001_add_user.up")
    = [UnmatchedFile "m/000001_add_user.up"]
  ∧ entryErrors slashJoin
      {| Path := "m"; Ext := "sql"; EnforceExt := true; NoGaps := false;
         Digits := 0; RequireDown := false; StrictNameMatch := false;
         StrictPattern := false |}
      (regularFile "000001_add_user.up")
    = [ExtMismatch "m/000001_add_user.up" "sql" "" ""].
Proof.
  split_and!.
  - destruct (C3_extension_mismatch_reported_once slashJoin
      {| Path := "m"; Ext := "sql"; EnforceExt := true; NoGaps := false;
         Digits := 0; RequireDown := false; StrictNameMatch := false;
         StrictPattern := false |}
      [regularFile "000001_a.down.txt"] _ eq_refl ltac:(discriminate) eq_refl)
      as (_ & _ & H).
    specialize (H (regularFile "000001_a.down.txt") eq_refl).
    cbv zeta in H. destruct H as [H _].
    + right. left. by vm_compute.
    + by vm_compute.
    + apply H. right. reflexivity.
  - destruct (C3_extension_mismatch_reported_once slashJoin
      {| Path := "m"; Ext := "sql"; EnforceExt := true; NoGaps := false;
         Digits := 0; RequireDown := false; StrictNameMatch := false;
         StrictPattern := true |}
      [regularFile "000001_add_user.up"] _ eq_refl ltac:(discriminate) eq_refl)
      as (_ & _ & H).
    specialize (H (regularFile "000001_add_user.up") eq_refl).
    cbv zeta in H. destruct H as (_ & H & _).
    + right. right. by vm_compute.
    + by vm_compute.
    + apply H; by vm_compute.
  - destruct (C3_extension_mismatch_reported_once slashJoin
      {| Path := "m"; Ext := "sql"; EnforceExt := true; NoGaps := false;
         Digits := 0; RequireDown := false; StrictNameMatch := false;
         StrictPattern := false |}
      [regularFile "000001_add_user.up"] _ eq_refl ltac:(discriminate) eq_refl)
      as (_ & _ & H).
    specialize (H (regularFile "000001_add_user.up") eq_refl).
    cbv zeta in H. destruct H as (_ & _ & H & _).
    + right. right. by vm_compute.
    + by vm_compute.
    + apply H; by vm_compute.
Defined.

(** ** C9: a canonical file that the extension filter excludes *)

Lemma extMatches_opt (expected finalExt e x : string) :
  expected ≠ "" → extMatches expected finalExt e = false →
  x = e ∨ x = "" → extMatches expected finalExt x = false.
Proof.
  intros Hne Hmis Hx. unfold extMatches in *.
  rewrite (isEmpty_false _ Hne) in *.
  destruct (Str.containsByte "." expected); [|done].
  destruct Hx as [-> | ->]; [done|].
  apply String.eqb_neq. congruence.
Qed.

Lemma records_without (Join : string → string → string) (cfg : Config)
    (before after : list DirEntry) (entry : DirEntry) :
  recordOf Join cfg entry = None →
  records Join cfg (before ++ entry :: after) = records Join cfg (before ++ after).
Proof.
  intros Hnone. unfold records. rewrite !omap_app. simpl. by rewrite Hnone.
Qed.

(** C9.  A canonical file whose extension part fails a configured filter
    adds no record to any version group, with enforcement on or off: its
    only violation is the "extension mismatch" one when enforcement is on,
    and none otherwise; the records of the run, hence the duplicate,
    pairing, name and gap violations, are those of the run without it, and
    it gives no "digits mismatch". *)
Theorem C9_filtered_canonical_file_is_not_grouped
    (Join : string → string → string) (cfg : Config) (entry : DirEntry)
    (v n d e : string) :
  isFile entry = true →
  matches (Name entry) = Some [Name entry; v; n; d; e] →
  Ext cfg ≠ "" →
  extMatches (Ext cfg) (finalExtForMatch (Name entry)) e = false →
  recordOf Join cfg entry = None
  ∧ entryErrors Join cfg entry
    = (if EnforceExt cfg
       then [ExtMismatch (Join (Path cfg) (Name entry)) (Ext cfg)
               (finalExtForMatch (Name entry)) (extPartOpt (Name entry))]
       else [])
  ∧ ∀ before after,
      records Join cfg (before ++ entry :: after)
      = records Join cfg (before ++ after)
      ∧ lintEntries Join cfg (before ++ after)
        = (before ≫= entryErrors Join cfg) ++ (after ≫= entryErrors Join cfg)
          ++ perVersionErrors cfg (records Join cfg (before ++ after))
          ++ gapRuleErrors cfg (records Join cfg (before ++ after))
      ∧ lintEntries Join cfg (before ++ entry :: after)
        = (before ≫= entryErrors Join cfg) ++ entryErrors Join cfg entry
          ++ (after ≫= entryErrors Join cfg)
          ++ perVersionErrors cfg (records Join cfg (before ++ after))
          ++ gapRuleErrors cfg (records Join cfg (before ++ after)).
Proof.
  intros Hfile Hm Hext Hmis.
  assert (recordOf Join cfg entry = None) as Hrec.
  { rewrite (recordOf_file Join cfg entry Hfile). cbv zeta. rewrite Hm.
    change ([Name entry; v; n; d; e] !!! 4%nat) with e.
    by rewrite (isEmpty_false _ Hext), Hmis. }
  split; [done|]. split.
  - rewrite (entryErrors_file Join cfg entry Hfile). cbv zeta. rewrite Hm.
    change ([Name entry; v; n; d; e] !!! 4%nat) with e.
    destruct (extPartOpt_canonical _ _ _ _ _ Hm) as [_ Hopt].
    rewrite (extMatches_opt _ _ _ _ Hext Hmis Hopt).
    rewrite (isEmpty_false _ Hext), Hmis.
    rewrite bool_decide_eq_true_2 by done.
    cbn [negb andb orb]. rewrite andb_true_r, app_nil_r.
    by destruct (EnforceExt cfg).
  - intros before after.
    rewrite !lintEntries_parts, (records_without Join cfg before after entry Hrec).
    rewrite !bind_app, bind_cons, <- !app_assoc. done.
Qed.

Lemma C9_witness_filtered_file :
  recordOf slashJoin
    {| Path := "m"; Ext := "sql"; EnforceExt := true; NoGaps := true;
       Digits := 6; RequireDown := true; StrictNameMatch := true;
       StrictPattern := true |}
    (regularFile "3_a.up.txt") = None
  ∧ entryErrors slashJoin
      {| Path := "m"; Ext := "sql"; EnforceExt := true; NoGaps := true;
         Digits := 6; RequireDown := true; StrictNameMatch := true;
         StrictPattern := true |}
      (regularFile "3_a.up.txt")
    = [ExtMismatch "m/3_a.up.txt" "sql" "txt" "txt"].
Proof.
  destruct (C9_filtered_canonical_file_is_not_grouped slashJoin
    {| Path := "m"; Ext := "sql"; EnforceExt := true; NoGaps := true;
       Digits := 6; RequireDown := true; StrictNameMatch := true;
       StrictPattern := true |}
    (regularFile "3_a.up.txt") "3" "a" "up" "txt"
    eq_refl ltac:(by vm_compute) ltac:(discriminate) ltac:(by vm_compute))
    as (H1 & H2 & _).
  split; [exact H1|]. rewrite H2. by vm_compute.
Defined.

(** ** C4: grouping by the value of the version token *)

Lemma matches_version_digits (name v n d e : string) :
  matches name = Some [name; v; n; d; e] →
  v ≠ "" ∧ Str.forallb strconv.isDigit v = true.
Proof.
  intros (v0 & n0 & d0 & e0 & [= <- <- <- <-] & Hsplit & _)
    %FindStringSubmatch_migratePattern.
  destruct Hsplit as (_ & ? & ? & _). done.
Qed.

Lemma groupOf_member (recs : list Migration) (m : Migration) :
  m ∈ recs →
  m ∈ Up (groupOf recs (Version m)) ++ Down (groupOf recs (Version m)).
Proof.
  intros Hin. unfold groupOf. simpl. rewrite elem_of_app, !list_elem_of_filter.
  destruct (decide (Direction m = "up")); [left | right]; done.
Qed.

Lemma groupOf_version (recs : list Migration) (v : Z) (m : Migration) :
  m ∈ Up (groupOf recs v) ++ Down (groupOf recs v) → Version m = v ∧ m ∈ recs.
Proof.
  unfold groupOf. simpl. rewrite elem_of_app, !list_elem_of_filter.
  naive_solver.
Qed.

Section Grouping.

Context (Join : string → string → string).

Lemma scan_lookup (cfg : Config) (entries : list DirEntry) (v : Z) :
  versions (scan Join cfg entries) !! v =
  if decide (v ∈ Version <$> records Join cfg entries)
  then Some (groupOf (records Join cfg entries) v) else None.
Proof.
  destruct (scan_spec Join cfg entries) as [_ Hg]. apply (grouped_lookup _ _ Hg).
Qed.

Lemma records_elem_of (cfg : Config) (entries : list DirEntry)
    (entry : DirEntry) (m : Migration) :
  entry ∈ entries → recordOf Join cfg entry = Some m →
  m ∈ records Join cfg entries.
Proof.
  intros Hin Hrec. unfold records. apply list_elem_of_omap. eauto.
Qed.

End Grouping.

(** C4, as the code has it.  A canonical file passes the extension filter
    when none is configured, or when [extMatches] holds of the filter, the
    file's final extension for matching ([finalExtForMatch]) and the
    extension part of the canonical match.  A file that passes is grouped
    under the number that its version token denotes, so leading zeros make
    no difference; every record of the group of a version has that
    version.  When the token of a file that passes denotes [2^63] or more,
    the file gives exactly one "version parse error" violation and joins no
    group.  A canonical file that does not pass joins no group, whether
    enforcement is on or off, and its version token is not parsed: its
    violations, if any, are "extension mismatch" ones.  [1_a.up.down] does
    not pass the filter [down], its final extension for matching being
    empty. *)
Theorem C4_filtered_in_file_grouped_by_version_value
    (Join : string → string → string) (cfg : Config) (entry : DirEntry)
    (v n d e : string) :
  isFile entry = true →
  matches (Name entry) = Some [Name entry; v; n; d; e] →
  (Ext cfg = "" ∨ extMatches (Ext cfg) (finalExtForMatch (Name entry)) e = true →
   decimalValue v < 2 ^ 63 →
   ∃ m, recordOf Join cfg entry = Some m
        ∧ Version m = decimalValue v ∧ VersionStr m = v
        ∧ filter (λ x, isVersionParseError x = true) (entryErrors Join cfg entry) = []
        ∧ ∀ entries, entry ∈ entries →
            ∃ g, versions (scan Join cfg entries) !! decimalValue v = Some g
                 ∧ m ∈ Up g ++ Down g
                 ∧ ∀ m', m' ∈ Up g ++ Down g → Version m' = decimalValue v)
  ∧ (Ext cfg = "" ∨ extMatches (Ext cfg) (finalExtForMatch (Name entry)) e = true →
     2 ^ 63 ≤ decimalValue v →
     recordOf Join cfg entry = None
     ∧ filter (λ x, isVersionParseError x = true) (entryErrors Join cfg entry)
       = [VersionParseError (Join (Path cfg) (Name entry)) (strconv.ErrRange v)])
  ∧ (∀ zeros, Str.forallb (Ascii.eqb "0") zeros = true →
              decimalValue (zeros +:+ v) = decimalValue v)
  ∧ (Ext cfg ≠ "" →
     extMatches (Ext cfg) (finalExtForMatch (Name entry)) e = false →
     recordOf Join cfg entry = None
     ∧ filter (λ x, isVersionParseError x = true) (entryErrors Join cfg entry) = []
     ∧ Forall (λ x, isExtMismatch x = true) (entryErrors Join cfg entry))
  ∧ matches "1_a.up.down" = Some ["1_a.up.down"; "1"; "a"; "up"; "down"]
  ∧ finalExtForMatch "1_a.up.down" = ""
  ∧ extMatches "down" (finalExtForMatch "1_a.up.down") "down" = false.
Proof.
  intros Hfile Hm.
  destruct (matches_version_digits _ _ _ _ _ Hm) as [Hv Hdig].
  assert (Ext cfg = ""
          ∨ extMatches (Ext cfg) (finalExtForMatch (Name entry)) e = true →
          negb (Str.isEmpty (Ext cfg))
          && negb (extMatches (Ext cfg) (finalExtForMatch (Name entry)) e) = false)
    as Hfilter.
  { intros [-> | ->]; [done|]. apply andb_false_r. }
  pose proof (recordOf_file Join cfg entry Hfile) as Hrec.
  pose proof (entryErrors_file Join cfg entry Hfile) as Herr.
  cbv zeta in Hrec, Herr. rewrite Hm in Hrec, Herr.
  change ([Name entry; v; n; d; e] !!! 4%nat) with e in Hrec, Herr.
  change ([Name entry; v; n; d; e] !!! 1%nat) with v in Hrec, Herr.
  split; [|split; [|split; [|split; [|by vm_compute]]]].
  - intros Hpass Hfit.
    rewrite (Hfilter Hpass), (ParseInt_digits v Hv Hdig) in Hrec, Herr.
    rewrite (proj2 (Z.leb_gt _ _) Hfit) in Hrec, Herr.
    eexists. split; [exact Hrec|]. cbn [Version VersionStr].
    split; [done|]. split; [done|]. split.
    + rewrite Herr. apply filter_none. intros x Hx Hk. revert Hx.
      rewrite elem_of_app. intros [Hx | Hx]; revert Hx;
        repeat case_match; other_kind.
    + intros entries Hin.
      pose proof (records_elem_of Join cfg entries entry _ Hin Hrec) as Hmem.
      eexists. rewrite scan_lookup. split; [|split].
      * rewrite decide_True; [done|].
        apply list_elem_of_fmap. eexists. split; [|exact Hmem]. done.
      * apply (groupOf_member _ _ Hmem).
      * intros m' Hm'. by apply groupOf_version in Hm' as [? _].
  - intros Hpass Hover.
    rewrite (Hfilter Hpass), (ParseInt_digits v Hv Hdig) in Hrec, Herr.
    rewrite (proj2 (Z.leb_le _ _) Hover) in Hrec, Herr.
    split; [done|]. rewrite Herr, filter_app.
    rewrite filter_none.
    2:{ intros x Hx Hk. revert Hx. repeat case_match; other_kind. }
    done.
  - intros zeros. apply decimalValue_leading_zeros.
  - intros Hne Hmis.
    assert (negb (Str.isEmpty (Ext cfg))
            && negb (extMatches (Ext cfg) (finalExtForMatch (Name entry)) e)
            = true) as Hout
      by (by rewrite (isEmpty_false _ Hne), Hmis).
    rewrite Hout in Hrec, Herr. rewrite app_nil_r in Herr.
    split; [done|]. rewrite Herr. split.
    + apply filter_none. intros x Hx Hk. revert Hx.
      repeat case_match; other_kind.
    + case_match; [by apply Forall_singleton|apply Forall_nil_2].
Qed.

Lemma C4_witness_leading_zeros_and_overflow :
  (∃ m, recordOf slashJoin (defaultConfig "m") (regularFile "001_a.up.sql") = Some m
        ∧ Version m = 1)
  ∧ recordOf slashJoin (defaultConfig "m")
      (regularFile "99999999999999999999_a.up.sql") = None
  ∧ recordOf slashJoin (withExt (defaultConfig "m") "down")
      (regularFile "1_a.up.down") = None.
Proof.
  split_and!.
  - destruct (C4_filtered_in_file_grouped_by_version_value slashJoin
      (defaultConfig "m") (regularFile "001_a.up.sql") "001" "a" "up" "sql"
      eq_refl ltac:(by vm_compute)) as (H & _).
    destruct H as (m & Hm & Hv & _); [by left|by vm_compute|].
    exists m. split; [exact Hm|]. rewrite Hv. by vm_compute.
  - destruct (C4_filtered_in_file_grouped_by_version_value slashJoin
      (defaultConfig "m") (regularFile "99999999999999999999_a.up.sql")
      "99999999999999999999" "a" "up" "sql"
      eq_refl ltac:(by vm_compute)) as (_ & H & _).
    destruct H as [H _]; [by left|by vm_compute|]. exact H.
  - destruct (C4_filtered_in_file_grouped_by_version_value slashJoin
      (withExt (defaultConfig "m") "down") (regularFile "1_a.up.down")
      "1" "a" "up" "down"
      eq_refl ltac:(by vm_compute)) as (_ & _ & _ & H & _).
    destruct H as [H _]; [discriminate|by vm_compute|]. exact H.
Defined.

(** C4 as stated fails for a canonical file that the extension filter
    excludes, also with enforcement on: with the filter [sql], a file whose
    version token does not fit 64 bits and whose extension is [txt] gives
    the "extension mismatch" violation and no "version parse error". *)
Lemma C4_excluded_file_gives_no_parse_error :
  matches "99999999999999999999_a.up.txt"
  = Some ["99999999999999999999_a.up.txt"; "99999999999999999999"; "a"; "up"; "txt"]
  ∧ 2 ^ 63 ≤ decimalValue "99999999999999999999"
  ∧ Lint slashJoin
      {| Path := "m"; Ext := "sql"; EnforceExt := true; NoGaps := false;
         Digits := 0; RequireDown := false; StrictNameMatch := false;
         StrictPattern := false |}
      (Listing [regularFile "99999999999999999999_a.up.txt"])
    = inr [ExtMismatch "m/99999999999999999999_a.up.txt" "sql" "txt" "txt"]
  ∧ Lint slashJoin
      {| Path := "m"; Ext := "sql"; EnforceExt := false; NoGaps := false;
         Digits := 0; RequireDown := false; StrictNameMatch := false;
         StrictPattern := false |}
      (Listing [regularFile "99999999999999999999_a.up.txt"])
    = inr [].
Proof. by vm_compute. Qed.

(** ** The per-version rules *)

Lemma bind_none {A B} (f : A → list B) (l : list A) :
  (∀ x, x ∈ l → f x = []) → l ≫= f = [].
Proof.
  induction l as [|a l IH]; intros Hl; [done|].
  rewrite bind_cons, Hl by set_solver. apply IH. intros x Hx. apply Hl. set_solver.
Qed.

Lemma bind_single {A B} (f : A → list B) (l : list A) (v : A) :
  NoDup l → v ∈ l → (∀ x, x ∈ l → x ≠ v → f x = []) → l ≫= f = f v.
Proof.
  induction l as [|a l IH]; intros Hnd Hin Hf; [by apply elem_of_nil in Hin|].
  apply NoDup_cons in Hnd as [Ha Hnd]. rewrite bind_cons.
  apply elem_of_cons in Hin as [-> | Hin].
  - rewrite bind_none; [by rewrite app_nil_r|].
    intros x Hx. apply Hf; [set_solver|]. by intros ->.
  - rewrite Hf; [|set_solver|by intros ->]. simpl.
    apply IH; [done..|]. intros x Hx. apply Hf. set_solver.
Qed.

Lemma filter_bind {A B} (P : B → Prop) `{!∀ x, Decision (P x)}
    (f : A → list B) (l : list A) :
  filter P (l ≫= f) = l ≫= λ x, filter P (f x).
Proof.
  induction l as [|a l IH]; [done|]. by rewrite !bind_cons, filter_app, IH.
Qed.

Lemma distinctVersions_NoDup (recs : list Migration) :
  NoDup (distinctVersions recs).
Proof.
  unfold distinctVersions. rewrite merge_sort_Permutation.
  apply NoDup_remove_dups.
Qed.

Lemma groupOf_nonempty_version (recs : list Migration) (v : Z) :
  Up (groupOf recs v) ≠ [] ∨ Down (groupOf recs v) ≠ [] →
  v ∈ distinctVersions recs.
Proof.
  intros H. apply distinctVersions_elem_of.
  assert (∃ m, m ∈ Up (groupOf recs v) ++ Down (groupOf recs v)) as [m Hm].
  { destruct H as [H | H].
    - destruct (Up (groupOf recs v)) as [|m ?]; [done|]. exists m. set_solver.
    - destruct (Down (groupOf recs v)) as [|m ?]; [done|]. exists m. set_solver. }
  apply groupOf_version in Hm as [<- Hm].
  apply list_elem_of_fmap. eauto.
Qed.

Lemma filter_groupErrors_DuplicateUp (cfg : Config) (v v' : Z) (g : VersionGroup) :
  filter (λ x, isDuplicateUpOf v x = true) (groupErrors cfg v' g) =
  if decide (v' = v ∧ (1 < length (Up g))%nat)
  then [DuplicateUp v (joinPaths (Up g))] else [].
Proof.
  unfold groupErrors. rewrite !filter_app.
  rewrite (filter_none _ (if bool_decide (1 < length (Down g))%nat then _ else _)).
  2:{ intros x Hx Hk. revert Hx. repeat case_match; other_kind. }
  rewrite (filter_none _ (if RequireDown cfg then _ else _)).
  2:{ intros x Hx Hk. revert Hx. destruct (RequireDown cfg); [|other_kind].
      rewrite elem_of_app. intros [Hx | Hx]; revert Hx;
        repeat case_match; other_kind. }
  rewrite (filter_none _ (if StrictNameMatch cfg then _ else _)).
  2:{ intros x Hx Hk. revert Hx. repeat case_match; other_kind. }
  rewrite !app_nil_r.
  case_bool_decide as Hlen.
  - destruct (decide (v' = v)) as [-> | Hne].
    + rewrite filter_cons_True by (simpl; lia).
      by rewrite decide_True.
    + rewrite filter_cons_False by (simpl; lia).
      rewrite decide_False by naive_solver. done.
  - rewrite decide_False by naive_solver. done.
Qed.

Lemma filter_groupErrors_DuplicateDown (cfg : Config) (v v' : Z) (g : VersionGroup) :
  filter (λ x, isDuplicateDownOf v x = true) (groupErrors cfg v' g) =
  if decide (v' = v ∧ (1 < length (Down g))%nat)
  then [DuplicateDown v (joinPaths (Down g))] else [].
Proof.
  unfold groupErrors. rewrite !filter_app.
  rewrite (filter_none _ (if bool_decide (1 < length (Up g))%nat then _ else _)).
  2:{ intros x Hx Hk. revert Hx. repeat case_match; other_kind. }
  rewrite (filter_none _ (if RequireDown cfg then _ else _)).
  2:{ intros x Hx Hk. revert Hx. destruct (RequireDown cfg); [|other_kind].
      rewrite elem_of_app. intros [Hx | Hx]; revert Hx;
        repeat case_match; other_kind. }
  rewrite (filter_none _ (if StrictNameMatch cfg then _ else _)).
  2:{ intros x Hx Hk. revert Hx. repeat case_match; other_kind. }
  rewrite !app_nil_r. simpl.
  case_bool_decide as Hlen.
  - destruct (decide (v' = v)) as [-> | Hne].
    + rewrite filter_cons_True by (simpl; lia).
      by rewrite decide_True.
    + rewrite filter_cons_False by (simpl; lia).
      rewrite decide_False by naive_solver. done.
  - rewrite decide_False by naive_solver. done.
Qed.

Lemma omap_none {A B} (f : A → option B) (l : list A) :
  (∀ x, x ∈ l → f x = None) → omap f l = [].
Proof.
  induction l as [|a l IH]; intros Hl; [done|].
  simpl. rewrite Hl by set_solver. apply IH. intros x Hx. apply Hl. set_solver.
Qed.

Lemma versionOf_other_rule (x : Violation) :
  ruleOf x ≠ PerVersion → versionOf x = None.
Proof. by destruct x. Qed.

Lemma omap_versionOf_groupErrors (cfg : Config) (v : Z) (g : VersionGroup) :
  Forall (λ z, z = v) (omap versionOf (groupErrors cfg v g)).
Proof.
  apply Forall_forall. intros z (x & Hx & Hz)%list_elem_of_omap.
  apply groupErrors_rule in Hx as [_ Hx]. congruence.
Qed.

Lemma constant_sorted (v : Z) (l : list Z) :
  Forall (λ z, z = v) l → StronglySorted Z.le l.
Proof.
  induction 1 as [|z l -> Hl IH]; constructor; [done|].
  eapply Forall_impl; [exact Hl|]. simpl. lia.
Qed.

Lemma perVersion_sorted (cfg : Config) (f : Z → VersionGroup) (keys : list Z) :
  StronglySorted Z.lt keys →
  StronglySorted Z.le (omap versionOf (keys ≫= λ v, groupErrors cfg v (f v)))
  ∧ Forall (λ z, z ∈ keys) (omap versionOf (keys ≫= λ v, groupErrors cfg v (f v))).
Proof.
  induction 1 as [|v keys Hs IH Hv]; [split; constructor|].
  destruct IH as [IH1 IH2]. rewrite bind_cons, omap_app.
  pose proof (omap_versionOf_groupErrors cfg v (f v)) as Hconst.
  split.
  - apply StronglySorted_app_2; [|by eapply constant_sorted|done].
    intros x1 x2 Hx1 Hx2.
    rewrite Forall_forall in Hconst, IH2, Hv.
    rewrite (Hconst _ Hx1). specialize (Hv _ (IH2 _ Hx2)). lia.
  - apply Forall_app. split.
    + eapply Forall_impl; [exact Hconst|]. intros z ->. set_solver.
    + eapply Forall_impl; [exact IH2|]. intros z ?. set_solver.
Qed.

Section Records.

Context (Join : string → string → string).

Lemma recordOf_Some (cfg : Config) (entry : DirEntry) (m : Migration) :
  recordOf Join cfg entry = Some m →
  isFile entry = true
  ∧ matches (Name entry)
    = Some [Name entry; VersionStr m; NamePart m; Direction m; ExtPart m]
  ∧ strconv.ParseInt (VersionStr m) = inr (Version m)
  ∧ MPath m = Join (Path cfg) (Name entry)
  ∧ FileName m = Name entry
  ∧ FinalExt m = finalExtension (Name entry).
Proof.
  destruct (isFile entry) eqn:Hfile.
  2:{ destruct (entryErrors_not_file Join cfg entry Hfile) as [-> _]. done. }
  rewrite (recordOf_file Join cfg entry Hfile). cbv zeta.
  destruct (matches (Name entry)) as [ms|] eqn:Hms; [|done].
  pose proof Hms as (v & n & d & e & -> & _)%FindStringSubmatch_migratePattern.
  change ([Name entry; v; n; d; e] !!! 4%nat) with e.
  change ([Name entry; v; n; d; e] !!! 1%nat) with v.
  change ([Name entry; v; n; d; e] !!! 2%nat) with n.
  change ([Name entry; v; n; d; e] !!! 3%nat) with d.
  destruct (_ && _); [done|].
  destruct (strconv.ParseInt v) as [err|version] eqn:Hparse; [done|].
  intros [= <-]. simpl. done.
Qed.

End Records.

(** ** C5: the duplicate rule and the order of the per-version violations *)

(** C5.  For a version with two or more up-records the run gives exactly
    one "duplicate up" violation of that version, whose text lists the
    paths of these records joined by a comma and a space, in the order of
    the directory listing ([records] keeps that order, and a record's path
    is that of its entry); likewise for down-records.  The versions of the
    per-version violations (duplicate, pairing, name) come in ascending
    order in the result. *)
Theorem C5_duplicates_once_in_listing_order
    (Join : string → string → string) (cfg : Config)
    (entries : list DirEntry) (errs : list Violation) :
  Lint Join cfg (Listing entries) = inr errs →
  let recs := records Join cfg entries in
  (∀ v, (2 ≤ length (Up (groupOf recs v)))%nat →
        filter (λ x, isDuplicateUpOf v x = true) errs
        = [DuplicateUp v (Str.join ", " (MPath <$> Up (groupOf recs v)))])
  ∧ (∀ v, (2 ≤ length (Down (groupOf recs v)))%nat →
          filter (λ x, isDuplicateDownOf v x = true) errs
          = [DuplicateDown v (Str.join ", " (MPath <$> Down (groupOf recs v)))])
  ∧ (∀ entry m, recordOf Join cfg entry = Some m →
                MPath m = Join (Path cfg) (Name entry))
  ∧ StronglySorted Z.le (omap versionOf errs).
Proof.
  intros ->%Lint_Listing recs. split_and!.
  - intros v Hlen.
    rewrite (filter_lintEntries_PerVersion Join (isDuplicateUpOf v))
      by (by intros []).
    unfold perVersionErrors. fold recs. rewrite filter_bind.
    rewrite (bind_single _ _ v).
    + rewrite filter_groupErrors_DuplicateUp.
      by rewrite decide_True by (split; [done|lia]).
    + apply distinctVersions_NoDup.
    + apply groupOf_nonempty_version. left.
      destruct (Up (groupOf recs v)); [simpl in Hlen; lia|done].
    + intros v' _ Hne. rewrite filter_groupErrors_DuplicateUp.
      by rewrite decide_False by naive_solver.
  - intros v Hlen.
    rewrite (filter_lintEntries_PerVersion Join (isDuplicateDownOf v))
      by (by intros []).
    unfold perVersionErrors. fold recs. rewrite filter_bind.
    rewrite (bind_single _ _ v).
    + rewrite filter_groupErrors_DuplicateDown.
      by rewrite decide_True by (split; [done|lia]).
    + apply distinctVersions_NoDup.
    + apply groupOf_nonempty_version. right.
      destruct (Down (groupOf recs v)); [simpl in Hlen; lia|done].
    + intros v' _ Hne. rewrite filter_groupErrors_DuplicateDown.
      by rewrite decide_False by naive_solver.
  - intros entry m Hrec. by apply recordOf_Some in Hrec as (_ & _ & _ & ? & _).
  - rewrite lintEntries_parts, !omap_app.
    rewrite (omap_none versionOf (entries ≫= entryErrors Join cfg)).
    2:{ intros x (e & Hx & _)%list_elem_of_bind. apply versionOf_other_rule.
        apply entryErrors_rule in Hx. by rewrite Hx. }
    rewrite (omap_none versionOf (gapRuleErrors _ _)).
    2:{ intros x Hx%gapRuleErrors_rule. apply versionOf_other_rule.
        by rewrite Hx. }
    rewrite app_nil_r. simpl.
    apply (perVersion_sorted cfg (groupOf (records Join cfg entries))).
    apply distinctVersions_sorted.
Qed.

Lemma C5_witness_two_ups :
  filter (λ x, isDuplicateUpOf 1 x = true)
    (lintEntries slashJoin (defaultConfig "m")
       [regularFile "000001_a.up.sql"; regularFile "000001_b.up.sql"])
  = [DuplicateUp 1 "m/000001_a.up.sql, m/000001_b.up.sql"].
Proof.
  destruct (C5_duplicates_once_in_listing_order slashJoin (defaultConfig "m")
    [regularFile "000001_a.up.sql"; regularFile "000001_b.up.sql"] _ eq_refl)
    as (H & _).
  rewrite (H 1); [by vm_compute|].
  by vm_compute.
Defined.

(** ** C6: the name and extension consistency rule *)

Lemma elem_of_groupErrors_NameExtMismatch (cfg : Config) (v v' : Z)
    (g : VersionGroup) (up down : string) :
  NameExtMismatch v up down ∈ groupErrors cfg v' g ↔
  StrictNameMatch cfg = true ∧ v = v'
  ∧ ∃ u d, Up g = [u] ∧ Down g = [d]
           ∧ (NamePart u ≠ NamePart d ∨ ExtPart u ≠ ExtPart d)
           ∧ up = FileName u ∧ down = FileName d.
Proof.
  unfold groupErrors. rewrite !elem_of_app. split.
  - intros [H | [H | [H | H]]].
    + revert H. repeat case_match; other_kind.
    + revert H. repeat case_match; other_kind.
    + revert H. destruct (RequireDown cfg); [|other_kind].
      rewrite elem_of_app. intros [H | H]; revert H;
        repeat case_match; other_kind.
    + destruct (StrictNameMatch cfg); [|by apply elem_of_nil in H].
      destruct (Up g) as [|u [|? ?]]; try by apply elem_of_nil in H.
      destruct (Down g) as [|d [|? ?]]; try by apply elem_of_nil in H.
      destruct (negb (NamePart u =? NamePart d)%string
                || negb (ExtPart u =? ExtPart d)%string) eqn:Hdiff;
        [|by apply elem_of_nil in H].
      apply list_elem_of_singleton in H as [= -> -> ->].
      split; [done|]. split; [done|]. exists u, d. split_and!; try done.
      apply orb_prop in Hdiff as [Hd | Hd]; apply negb_true_iff in Hd;
        apply String.eqb_neq in Hd; auto.
  - intros (-> & -> & u & d & -> & -> & Hdiff & -> & ->).
    do 3 right.
    assert (negb (NamePart u =? NamePart d)%string
            || negb (ExtPart u =? ExtPart d)%string = true) as ->.
    { destruct Hdiff as [Hd | Hd]; apply String.eqb_neq in Hd; rewrite Hd;
        [done|apply orb_true_r]. }
    set_solver.
Qed.

Section PerVersion.

Context (Join : string → string → string).

Lemma elem_of_lintEntries_PerVersion (cfg : Config) (entries : list DirEntry)
    (x : Violation) :
  ruleOf x = PerVersion →
  x ∈ lintEntries Join cfg entries ↔
  ∃ v, v ∈ distinctVersions (records Join cfg entries)
       ∧ x ∈ groupErrors cfg v (groupOf (records Join cfg entries) v).
Proof.
  intros Hrule. rewrite lintEntries_parts, !elem_of_app.
  unfold perVersionErrors. split.
  - intros [(e & Hx & _)%list_elem_of_bind | [H | H]].
    + apply entryErrors_rule in Hx. congruence.
    + apply list_elem_of_bind in H as (v & ? & ?). eauto.
    + apply gapRuleErrors_rule in H. congruence.
  - intros (v & ? & ?). right. left. apply list_elem_of_bind. eauto.
Qed.

End PerVersion.

(** C6.  With strict-name-match on, the run holds a "name/ext mismatch"
    violation of a version exactly when the version has one up-record and
    one down-record whose name parts or extension parts differ; the
    violation names the two filenames.  A version with two or more
    up-records, or two or more down-records, has none. *)
Theorem C6_name_ext_mismatch_iff_single_pair_differs
    (Join : string → string → string) (cfg : Config)
    (entries : list DirEntry) (errs : list Violation) (v : Z) :
  Lint Join cfg (Listing entries) = inr errs →
  StrictNameMatch cfg = true →
  let recs := records Join cfg entries in
  ((∃ up down, NameExtMismatch v up down ∈ errs) ↔
   ∃ u d, Up (groupOf recs v) = [u] ∧ Down (groupOf recs v) = [d]
          ∧ (NamePart u ≠ NamePart d ∨ ExtPart u ≠ ExtPart d))
  ∧ (∀ up down, NameExtMismatch v up down ∈ errs →
       ∃ u d, Up (groupOf recs v) = [u] ∧ Down (groupOf recs v) = [d]
              ∧ up = FileName u ∧ down = FileName d)
  ∧ ((2 ≤ length (Up (groupOf recs v)))%nat
     ∨ (2 ≤ length (Down (groupOf recs v)))%nat →
     ∀ up down, NameExtMismatch v up down ∉ errs).
Proof.
  intros ->%Lint_Listing Hstrict recs.
  assert (∀ up down,
            NameExtMismatch v up down ∈ lintEntries Join cfg entries ↔
            ∃ u d, Up (groupOf recs v) = [u] ∧ Down (groupOf recs v) = [d]
                   ∧ (NamePart u ≠ NamePart d ∨ ExtPart u ≠ ExtPart d)
                   ∧ up = FileName u ∧ down = FileName d) as Hiff.
  { intros up down. rewrite elem_of_lintEntries_PerVersion by done. fold recs.
    setoid_rewrite elem_of_groupErrors_NameExtMismatch. split.
    - intros (v' & _ & _ & <- & H). exact H.
    - intros (u & d & Hu & Hd & Hrest). exists v. split.
      + apply groupOf_nonempty_version. left. fold recs. by rewrite Hu.
      + split; [done|]. split; [done|]. exists u, d. done. }
  split_and!.
  - split.
    + intros (up & down & (u & d & ? & ? & ? & _)%Hiff). eauto.
    + intros (u & d & ? & ? & ?). exists (FileName u), (FileName d).
      apply Hiff. exists u, d. done.
  - intros up down (u & d & ? & ? & _ & ? & ?)%Hiff. eauto 6.
  - intros Hdup up down (u & d & Hu & Hd & _)%Hiff.
    rewrite Hu, Hd in Hdup. simpl in Hdup. lia.
Qed.

Lemma C6_witness_mismatch_and_duplicate :
  (∃ up down,
     NameExtMismatch 1 up down
     ∈ lintEntries slashJoin
         {| Path := "m"; Ext := ""; EnforceExt := false; NoGaps := false;
            Digits := 0; RequireDown := false; StrictNameMatch := true;
            StrictPattern := false |}
         [regularFile "000001_foo.up.sql"; regularFile "000001_bar.down.sql"])
  ∧ ∀ up down,
      NameExtMismatch 1 up down
      ∉ lintEntries slashJoin
          {| Path := "m"; Ext := ""; EnforceExt := false; NoGaps := false;
             Digits := 0; RequireDown := false; StrictNameMatch := true;
             StrictPattern := false |}
          [regularFile "000001_foo.up.sql"; regularFile "000001_bar.up.sql";
           regularFile "000001_bar.down.sql"].
Proof.
  split.
  - destruct (C6_name_ext_mismatch_iff_single_pair_differs slashJoin
      {| Path := "m"; Ext := ""; EnforceExt := false; NoGaps := false;
         Digits := 0; RequireDown := false; StrictNameMatch := true;
         StrictPattern := false |}
      [regularFile "000001_foo.up.sql"; regularFile "000001_bar.down.sql"]
      _ 1 eq_refl eq_refl) as (H & _).
    apply H. eexists _, _. split; [by vm_compute|]. split; [by vm_compute|].
    left. by vm_compute.
  - destruct (C6_name_ext_mismatch_iff_single_pair_differs slashJoin
      {| Path := "m"; Ext := ""; EnforceExt := false; NoGaps := false;
         Digits := 0; RequireDown := false; StrictNameMatch := true;
         StrictPattern := false |}
      [regularFile "000001_foo.up.sql"; regularFile "000001_bar.up.sql";
       regularFile "000001_bar.down.sql"]
      _ 1 eq_refl eq_refl) as (_ & _ & H).
    apply H. left. by vm_compute.
Defined.

(** ** C7: the gap rule *)

Lemma wrap64_small (z : Z) : - 2 ^ 63 ≤ z < 2 ^ 63 → wrap64 z = z.
Proof. intros Hz. unfold wrap64. rewrite Z.mod_small; lia. Qed.

Lemma readDigits_ge (acc un : Z) (s : string) :
  strconv.readDigits acc s = Some un → 0 ≤ acc → acc ≤ un.
Proof.
  revert acc. induction s as [|a t IH]; intros acc H Hacc; simpl in H.
  - injection H as <-. lia.
  - destruct (strconv.isDigit a) eqn:Ha; [|done].
    apply isDigit_digitVal in Ha. apply IH in H; lia.
Qed.

Lemma ParseInt_range (s : string) (z : Z) :
  strconv.ParseInt s = inr z → - 2 ^ 63 ≤ z < 2 ^ 63.
Proof.
  unfold strconv.ParseInt. destruct s as [|a t]; [done|].
  set (neg := Ascii.eqb a "-").
  destruct (if Ascii.eqb a "+" || neg then t else String a t) as [|b body] eqn:Hb;
    [done|].
  destruct (strconv.readDigits 0 (String b body)) as [un|] eqn:Hun; [|done].
  apply readDigits_ge in Hun; [|lia].
  destruct neg; cbn [negb andb].
  - destruct (2 ^ 63 <? un) eqn:Hcmp; [done|]. intros [= <-]. lia.
  - destruct (2 ^ 63 <=? un) eqn:Hcmp; [done|]. intros [= <-]. lia.
Qed.

Lemma gapError_missingRange (prev cur : Z) :
  - 2 ^ 63 ≤ prev → prev < cur → cur < 2 ^ 63 →
  gapError prev cur = missingRange prev cur.
Proof.
  intros Hlo Hlt Hhi. unfold gapError, missingRange.
  rewrite !wrap64_small by lia.
  destruct (cur =? prev + 1) eqn:H1; [done|]. cbn [negb].
  destruct (cur =? prev + 2) eqn:H2.
  - rewrite (proj2 (Z.eqb_eq _ _)) by lia. done.
  - rewrite (proj2 (Z.eqb_neq _ _)) by lia. done.
Qed.

Lemma gapErrors_missingRanges (keys : list Z) :
  StronglySorted Z.lt keys →
  Forall (λ z, - 2 ^ 63 ≤ z < 2 ^ 63) keys →
  gapErrors keys = missingRanges keys.
Proof.
  induction 1 as [|prev rest Hs IH Hprev]; intros Hrange; [done|].
  apply Forall_cons in Hrange as [Hp Hrange].
  destruct rest as [|cur rest]; [done|].
  change (gapErrors (prev :: cur :: rest))
    with (gapError prev cur ++ gapErrors (cur :: rest)).
  change (missingRanges (prev :: cur :: rest))
    with (missingRange prev cur ++ missingRanges (cur :: rest)).
  rewrite IH by done. f_equal.
  apply Forall_cons in Hprev as [Hlt _].
  apply Forall_cons in Hrange as [Hc _].
  apply gapError_missingRange; lia.
Qed.

Lemma records_version_range (Join : string → string → string) (cfg : Config)
    (entries : list DirEntry) :
  Forall (λ z, - 2 ^ 63 ≤ z < 2 ^ 63)
    (distinctVersions (records Join cfg entries)).
Proof.
  apply Forall_forall. intros z Hz%distinctVersions_elem_of.
  apply list_elem_of_fmap in Hz as (m & -> & Hm).
  unfold records in Hm. apply list_elem_of_omap in Hm as (e & _ & Hrec).
  apply recordOf_Some in Hrec as (_ & _ & Hparse & _).
  by apply ParseInt_range in Hparse.
Qed.

(** C7.  With no-gaps on, the gap violations of a run are those that the
    rule of the specification gives on the sorted distinct versions of its
    records: for each adjacent pair whose second version is not the first
    plus one, one "missing version N" when a single version is missing,
    and one "missing versions N..M" otherwise, with the two bounding
    versions.  Versions 1 and 3 give the single violation naming 2,
    versions 1 and 5 the single violation naming 2..4, and versions 1, 2
    and 3 none. *)
Theorem C7_gap_rule_one_violation_per_gap :
  (∀ (Join : string → string → string) cfg entries errs,
     Lint Join cfg (Listing entries) = inr errs →
     NoGaps cfg = true →
     filter (λ x, ruleOf x = GapRule) errs
     = missingRanges (distinctVersions (records Join cfg entries))
     ∧ StronglySorted Z.lt (distinctVersions (records Join cfg entries)))
  ∧ (∀ quote,
       message quote <$> missingRanges [1; 3]
       = ["missing version 2 (between 1 and 3)"]
       ∧ message quote <$> missingRanges [1; 5]
         = ["missing versions 2..4 (between 1 and 5)"])
  ∧ missingRanges [1; 2; 3] = []
  ∧ (let cfg := {| Path := "m"; Ext := ""; EnforceExt := false; NoGaps := true;
                   Digits := 0; RequireDown := false; StrictNameMatch := false;
                   StrictPattern := false |} in
     Lint slashJoin cfg
       (Listing [regularFile "000003_a.up.sql"; regularFile "000001_a.up.sql"])
     = inr [MissingVersion 2 1 3]
     ∧ Lint slashJoin cfg
         (Listing [regularFile "1_a.up.sql"; regularFile "5_a.up.sql"])
       = inr [MissingVersions 2 4 1 5]
     ∧ Lint slashJoin cfg
         (Listing [regularFile "1_a.up.sql"; regularFile "2_a.up.sql";
                   regularFile "3_a.up.sql"])
       = inr []).
Proof.
  split; [|by vm_compute].
  intros Join cfg entries errs ->%Lint_Listing Hgaps.
  split; [|apply distinctVersions_sorted].
  rewrite filter_lintEntries_GapRule. unfold gapRuleErrors. rewrite Hgaps.
  apply gapErrors_missingRanges.
  - apply distinctVersions_sorted.
  - apply records_version_range.
Qed.

Lemma C7_witness_one_and_three :
  filter (λ x, ruleOf x = GapRule)
    (lintEntries slashJoin
       {| Path := "m"; Ext := ""; EnforceExt := false; NoGaps := true;
          Digits := 0; RequireDown := true; StrictNameMatch := false;
          StrictPattern := false |}
       [regularFile "000003_a.up.sql"; regularFile "000001_a.up.sql"])
  = [MissingVersion 2 1 3].
Proof.
  destruct (proj1 C7_gap_rule_one_violation_per_gap slashJoin
    {| Path := "m"; Ext := ""; EnforceExt := false; NoGaps := true;
       Digits := 0; RequireDown := true; StrictNameMatch := false;
       StrictPattern := false |}
    [regularFile "000003_a.up.sql"; regularFile "000001_a.up.sql"] _
    eq_refl eq_refl) as [H _].
  rewrite H. by vm_compute.
Defined.

(* ===================================================================== *)
(** * Further properties of the code *)

(** ** The records of a run *)

(** Every record of a run comes from a regular file of the listing, whose
    name is the version string, an underscore, the name part, a dot, the
    direction, a dot and the extension part, none of the three parts being
    empty and the direction being [up] or [down]; its version is the number
    that the version string denotes, between 0 and [2^63 - 1], and its path
    is the directory joined with the filename. *)
Theorem record_fields_round_trip
    (Join : string → string → string) (cfg : Config)
    (entries : list DirEntry) (m : Migration) :
  m ∈ records Join cfg entries →
  (∃ entry, entry ∈ entries ∧ isFile entry = true ∧ FileName m = Name entry)
  ∧ MPath m = Join (Path cfg) (FileName m)
  ∧ FileName m
    = VersionStr m +:+ "_" +:+ NamePart m +:+ "." +:+ Direction m +:+ "."
      +:+ ExtPart m
  ∧ VersionStr m ≠ "" ∧ NamePart m ≠ "" ∧ ExtPart m ≠ ""
  ∧ (Direction m = "up" ∨ Direction m = "down")
  ∧ Version m = decimalValue (VersionStr m)
  ∧ 0 ≤ Version m < 2 ^ 63
  ∧ FinalExt m = finalExtension (FileName m).
Proof.
  intros (entry & Hin & Hrec)%list_elem_of_omap.
  apply recordOf_Some in Hrec as (Hfile & Hm & Hparse & Hpath & Hname & Hfin).
  pose proof Hm as (v & n & d & e & [= <- <- <- <-] & Hsplit & _)
    %FindStringSubmatch_migratePattern.
  destruct Hsplit as (Hs & Hv & Hdig & Hn & _ & Hd & He & _).
  rewrite (ParseInt_digits _ Hv Hdig) in Hparse.
  destruct (2 ^ 63 <=? decimalValue (VersionStr m)) eqn:Hcmp; [done|].
  injection Hparse as Hparse.
  pose proof (decimalFrom_ge 0 (VersionStr m) Hdig ltac:(lia)) as Hge.
  fold (decimalValue (VersionStr m)) in Hge.
  split_and!; try done; try lia.
  - exists entry. done.
  - by rewrite Hname.
  - by rewrite Hname.
  - by rewrite Hname.
Qed.

Lemma record_fields_round_trip_witness :
  let m := {| MPath := "db/000012_add_users.down.sql.gz";
              FileName := "000012_add_users.down.sql.gz";
              VersionStr := "000012"; Version := 12;
              NamePart := "add_users"; Direction := "down";
              ExtPart := "sql.gz"; FinalExt := "gz" |} in
  m ∈ records slashJoin (defaultConfig "db")
        [regularFile "README.md"; regularFile "000012_add_users.down.sql.gz"]
  ∧ Version m = decimalValue (VersionStr m)
  ∧ 0 ≤ Version m < 2 ^ 63.
Proof.
  intros m.
  assert (m ∈ records slashJoin (defaultConfig "db")
                [regularFile "README.md";
                 regularFile "000012_add_users.down.sql.gz"]) as Hin.
  { vm_compute. apply list_elem_of_here. }
  split; [exact Hin|].
  destruct (record_fields_round_trip slashJoin (defaultConfig "db") _ m Hin)
    as (_ & _ & _ & _ & _ & _ & _ & Hv & Hr & _).
  split; [exact Hv | exact Hr].
Defined.

(** ** [finalExtension] *)

Lemma LastIndexByte_absent (s : string) (c : ascii) :
  Str.containsByte c s = false → LastIndexByte s c = -1.
Proof.
  induction s as [|a t IH]; simpl; [done|].
  intros [Ha Ht]%orb_false_elim. by rewrite (IH Ht), Ha.
Qed.

Lemma LastIndexByte_last (pre e : string) (c : ascii) :
  Str.containsByte c e = false →
  LastIndexByte (pre +:+ String c e) c = len pre.
Proof.
  intros He. induction pre as [|a pre IH]; simpl.
  - by rewrite (LastIndexByte_absent _ _ He), Ascii.eqb_refl.
  - rewrite IH. unfold len.
    destruct (Z.eqb_spec (Z.of_nat (String.length pre)) (-1)) as [Heq | _];
      [lia|].
    change (String.length (String a pre)) with (S (String.length pre)). lia.
Qed.

Lemma sliceFrom_app (a b : string) : sliceFrom (String.length a) (a +:+ b) = b.
Proof. induction a; simpl; [by destruct b | done]. Qed.

(** The final extension of a name is what follows its last dot: it is
    empty for a name without a dot and for a name that ends in a dot, and
    it never holds a dot itself. *)
Theorem finalExtension_after_last_dot :
  (∀ pre e, Str.containsByte "." e = false →
            finalExtension (pre +:+ "." +:+ e) = e)
  ∧ (∀ name, Str.containsByte "." name = false → finalExtension name = "")
  ∧ (∀ pre, finalExtension (pre +:+ ".") = "")
  ∧ (∀ name, Str.containsByte "." (finalExtension name) = false).
Proof.
  assert (∀ pre e, Str.containsByte "." e = false →
                   finalExtension (pre +:+ "." +:+ e) = e) as Hlast.
  { intros pre e He. unfold finalExtension.
    change (pre +:+ "." +:+ e) with (pre +:+ String "." e).
    rewrite (LastIndexByte_last pre e "." He).
    assert (len (pre +:+ String "." e) = len pre + 1 + len e) as ->.
    { unfold len. rewrite str_length_app.
      change (String.length (String "." e)) with (S (String.length e)). lia. }
    assert (0 ≤ len pre ∧ 0 ≤ len e) as [Hp He'] by (unfold len; lia).
    destruct (Z.eqb_spec (len pre) (-1)) as [? | _]; [lia|]. cbn [negb andb].
    destruct (Z.ltb_spec (len pre) (len pre + 1 + len e - 1)) as [Hlt | Hge].
    - replace (Z.to_nat (len pre + 1)) with (String.length (pre +:+ "."))
        by (unfold len; rewrite str_length_app; simpl; lia).
      rewrite <- (sliceFrom_app (pre +:+ ".") e) at 2.
      by rewrite str_app_assoc.
    - destruct e; [done|]. unfold len in Hge. simpl in Hge. lia. }
  assert (∀ name, Str.containsByte "." name = false → finalExtension name = "")
    as Hnone.
  { intros name Hname. unfold finalExtension.
    by rewrite (LastIndexByte_absent _ _ Hname). }
  split_and!; try done.
  - intros pre. by apply (Hlast pre "").
  - intros name.
    assert (∀ s, Str.containsByte "." s = false
                 ∨ ∃ pre e, s = pre +:+ "." +:+ e
                            ∧ Str.containsByte "." e = false) as Hsplit.
    { induction s as [|a t IH]; [by left|].
      destruct IH as [Ht | (pre & e & -> & He)].
      - destruct (Ascii.eqb a ".") eqn:Ha.
        + apply Ascii.eqb_eq in Ha as ->. right. by exists "", t.
        + left. simpl. by rewrite Ha.
      - right. by exists (String a pre), e. }
    destruct (Hsplit name) as [Hname | (pre & e & -> & He)].
    + by rewrite Hnone.
    + by rewrite Hlast.
Qed.

(** ** Entries that are not regular files *)

Section Skipped.

Context (Join : string → string → string).

Lemma skipped_contributes_nothing (cfg : Config) (entry : DirEntry) :
  skipped entry = true →
  entryErrors Join cfg entry = [] ∧ recordOf Join cfg entry = None.
Proof.
  unfold skipped, entryErrors, recordOf, lintEntry.
  by destruct (Type_ entry) as [| |[err|[|]]|].
Qed.

Lemma bind_filter_skipped (cfg : Config) (entries : list DirEntry) :
  filter (λ e, skipped e = false) entries ≫= entryErrors Join cfg
  = entries ≫= entryErrors Join cfg.
Proof.
  induction entries as [|e entries IH]; [done|].
  destruct (skipped e) eqn:Hs.
  - rewrite filter_cons_False by congruence.
    rewrite bind_cons, (proj1 (skipped_contributes_nothing cfg e Hs)). done.
  - rewrite filter_cons_True by done. by rewrite !bind_cons, IH.
Qed.

Lemma records_cons (cfg : Config) (e : DirEntry) (entries : list DirEntry) :
  records Join cfg (e :: entries)
  = option_list (recordOf Join cfg e) ++ records Join cfg entries.
Proof. unfold records. simpl. by destruct (recordOf Join cfg e). Qed.

Lemma records_filter_skipped (cfg : Config) (entries : list DirEntry) :
  records Join cfg (filter (λ e, skipped e = false) entries)
  = records Join cfg entries.
Proof.
  induction entries as [|e entries IH]; [done|].
  destruct (skipped e) eqn:Hs.
  - rewrite filter_cons_False by congruence.
    rewrite records_cons, (proj2 (skipped_contributes_nothing cfg e Hs)). done.
  - rewrite filter_cons_True by done. by rewrite !records_cons, IH.
Qed.

End Skipped.

(** Directories, special files and symbolic links to something other than
    a regular file are invisible: a run gives the same result as the run on
    the listing without them.  A symbolic link whose target cannot be
    examined gives the one violation that says so, and no record. *)
Theorem non_files_are_invisible
    (Join : string → string → string) (cfg : Config) :
  (∀ entries,
     Lint Join cfg (Listing (filter (λ e, skipped e = false) entries))
     = Lint Join cfg (Listing entries))
  ∧ (∀ name err,
       let link := {| Name := name; Type_ := TSymlink (StatFails err) |} in
       entryErrors Join cfg link = [StatSymlinkFailed (Join (Path cfg) name) err]
       ∧ recordOf Join cfg link = None)
  ∧ (∀ name,
       let link := {| Name := name; Type_ := TSymlink (StatMode true) |} in
       entryErrors Join cfg link = entryErrors Join cfg (regularFile name)
       ∧ recordOf Join cfg link = recordOf Join cfg (regularFile name)).
Proof.
  split_and!; try done.
  intros entries. simpl. f_equal.
  by rewrite !lintEntries_parts, bind_filter_skipped, records_filter_skipped.
Qed.

(** ** The order of the result *)

(** The result holds the violations of the entries first, entry by entry
    in the order of the listing, then the duplicate, pairing and name
    violations, then the gap violations. *)
Theorem result_in_rule_order
    (Join : string → string → string) (cfg : Config)
    (entries : list DirEntry) (errs : list Violation) :
  Lint Join cfg (Listing entries) = inr errs →
  ∃ perVersion gaps,
    errs = (entries ≫= entryErrors Join cfg) ++ perVersion ++ gaps
    ∧ Forall (λ x, ruleOf x = PerEntry) (entries ≫= entryErrors Join cfg)
    ∧ Forall (λ x, ruleOf x = PerVersion) perVersion
    ∧ Forall (λ x, ruleOf x = GapRule) gaps.
Proof.
  intros ->%Lint_Listing. rewrite lintEntries_parts.
  eexists _, _. split; [done|]. split_and!; apply Forall_forall.
  - intros x (e & Hx & _)%list_elem_of_bind. by apply entryErrors_rule in Hx.
  - intros x. apply perVersionErrors_rule.
  - intros x. apply gapRuleErrors_rule.
Qed.

Lemma result_in_rule_order_witness :
  ∃ perVersion gaps,
    [DigitsMismatch "m/7_a.up.sql" 1 3; DuplicateUp 7 "m/7_a.up.sql, m/007_b.up.sql";
     MissingVersions 3 6 2 7]
    = ([regularFile "7_a.up.sql"; regularFile "007_b.up.sql"; regularFile "002_c.up.sql"]
         ≫= entryErrors slashJoin
              {| Path := "m"; Ext := ""; EnforceExt := false; NoGaps := true;
                 Digits := 3; RequireDown := false; StrictNameMatch := false;
                 StrictPattern := false |})
      ++ perVersion ++ gaps.
Proof.
  destruct (result_in_rule_order slashJoin
    {| Path := "m"; Ext := ""; EnforceExt := false; NoGaps := true;
       Digits := 3; RequireDown := false; StrictNameMatch := false;
       StrictPattern := false |}
    [regularFile "7_a.up.sql"; regularFile "007_b.up.sql"; regularFile "002_c.up.sql"]
    [DigitsMismatch "m/7_a.up.sql" 1 3; DuplicateUp 7 "m/7_a.up.sql, m/007_b.up.sql";
     MissingVersions 3 6 2 7]
    ltac:(by vm_compute)) as (pv & gaps & H & _).
  exists pv, gaps. exact H.
Defined.

(** ** The pairing rule *)

Lemma elem_of_groupErrors_MissingDown (cfg : Config) (v v' : Z) (g : VersionGroup) :
  MissingDown v ∈ groupErrors cfg v' g ↔
  RequireDown cfg = true ∧ v = v' ∧ Up g ≠ [] ∧ Down g = [].
Proof.
  unfold groupErrors. rewrite !elem_of_app. split.
  - intros [H | [H | [H | H]]].
    + revert H. repeat case_match; other_kind.
    + revert H. repeat case_match; other_kind.
    + destruct (RequireDown cfg); [|by apply elem_of_nil in H].
      apply elem_of_app in H as [H | H].
      * destruct (Up g), (Down g); simpl in H;
          try (by apply elem_of_nil in H).
        apply list_elem_of_singleton in H as [= ->]. done.
      * revert H. repeat case_match; other_kind.
    + revert H. repeat case_match; other_kind.
  - intros (-> & -> & Hup & ->). do 2 right. left.
    apply elem_of_app. left. destruct (Up g); [done|]. simpl. set_solver.
Qed.

Lemma elem_of_groupErrors_MissingUp (cfg : Config) (v v' : Z) (g : VersionGroup) :
  MissingUp v ∈ groupErrors cfg v' g ↔
  RequireDown cfg = true ∧ v = v' ∧ Down g ≠ [] ∧ Up g = [].
Proof.
  unfold groupErrors. rewrite !elem_of_app. split.
  - intros [H | [H | [H | H]]].
    + revert H. repeat case_match; other_kind.
    + revert H. repeat case_match; other_kind.
    + destruct (RequireDown cfg); [|by apply elem_of_nil in H].
      apply elem_of_app in H as [H | H].
      * revert H. repeat case_match; other_kind.
      * destruct (Up g), (Down g); simpl in H;
          try (by apply elem_of_nil in H).
        apply list_elem_of_singleton in H as [= ->]. done.
    + revert H. repeat case_match; other_kind.
  - intros (-> & -> & Hdown & ->). do 2 right. left.
    apply elem_of_app. right. destruct (Down g); [done|]. simpl. set_solver.
Qed.

(** With require-down on, a run reports a missing down migration for
    exactly the versions that have an up-record and no down-record, and a
    missing up migration for exactly those that have a down-record and no
    up-record; with the option off it reports neither. *)
Theorem pairing_rule_iff
    (Join : string → string → string) (cfg : Config)
    (entries : list DirEntry) (errs : list Violation) (v : Z) :
  Lint Join cfg (Listing entries) = inr errs →
  let recs := records Join cfg entries in
  (MissingDown v ∈ errs ↔
   RequireDown cfg = true ∧ Up (groupOf recs v) ≠ [] ∧ Down (groupOf recs v) = [])
  ∧ (MissingUp v ∈ errs ↔
     RequireDown cfg = true ∧ Down (groupOf recs v) ≠ [] ∧ Up (groupOf recs v) = []).
Proof.
  intros ->%Lint_Listing recs. split.
  - rewrite elem_of_lintEntries_PerVersion by done. fold recs.
    setoid_rewrite elem_of_groupErrors_MissingDown. split.
    + intros (v' & _ & ? & <- & ?). done.
    + intros (? & Hup & ?). exists v. split; [|done].
      apply groupOf_nonempty_version. by left.
  - rewrite elem_of_lintEntries_PerVersion by done. fold recs.
    setoid_rewrite elem_of_groupErrors_MissingUp. split.
    + intros (v' & _ & ? & <- & ?). done.
    + intros (? & Hdown & ?). exists v. split; [|done].
      apply groupOf_nonempty_version. by right.
Qed.

Lemma pairing_rule_iff_witness :
  MissingDown 1
  ∈ lintEntries slashJoin
      {| Path := "m"; Ext := ""; EnforceExt := false; NoGaps := false;
         Digits := 0; RequireDown := true; StrictNameMatch := false;
         StrictPattern := false |}
      [regularFile "000001_create_users.up.sql"].
Proof.
  destruct (pairing_rule_iff slashJoin
    {| Path := "m"; Ext := ""; EnforceExt := false; NoGaps := false;
       Digits := 0; RequireDown := true; StrictNameMatch := false;
       StrictPattern := false |}
    [regularFile "000001_create_users.up.sql"] _ 1 eq_refl) as [H _].
  apply H. by vm_compute.
Defined.

(** ** Options and the violations they enable *)

Lemma groupErrors_enabled (cfg : Config) (v : Z) (g : VersionGroup) (x : Violation) :
  x ∈ groupErrors cfg v g → ruleEnabled cfg x = true.
Proof.
  unfold groupErrors. rewrite !elem_of_app. intros [H | [H | [H | H]]].
  - revert H. case_match; [|by intros ?%elem_of_nil].
    by intros ->%list_elem_of_singleton.
  - revert H. case_match; [|by intros ?%elem_of_nil].
    by intros ->%list_elem_of_singleton.
  - destruct (RequireDown cfg) eqn:Hreq; [|by apply elem_of_nil in H].
    apply elem_of_app in H as [H | H]; revert H;
      (case_match; [|by intros ?%elem_of_nil]);
      by intros ->%list_elem_of_singleton.
  - destruct (StrictNameMatch cfg) eqn:Hs; [|by apply elem_of_nil in H].
    revert H. repeat case_match; try (by intros ?%elem_of_nil).
    by intros ->%list_elem_of_singleton.
Qed.

Lemma entryErrors_enabled (Join : string → string → string) (cfg : Config)
    (entry : DirEntry) (x : Violation) :
  x ∈ entryErrors Join cfg entry → ruleEnabled cfg x = true.
Proof.
  destruct (isFile entry) eqn:Hfile.
  - rewrite (entryErrors_file Join cfg entry Hfile). cbv zeta.
    rewrite elem_of_app. intros [H | H].
    + destruct (negb (Str.isEmpty (Ext cfg))) eqn:Hext;
        [|by apply elem_of_nil in H].
      destruct (EnforceExt cfg) eqn:Henf; [|by apply elem_of_nil in H].
      revert H. case_match; [|by intros ?%elem_of_nil].
      intros ->%list_elem_of_singleton. simpl. by rewrite Henf, Hext.
    + destruct (matches (Name entry)) as [m|].
      * revert H. case_match; [by intros ?%elem_of_nil|].
        case_match; [by intros ->%list_elem_of_singleton|].
        destruct (0 <? Digits cfg) eqn:Hd; [|by intros ?%elem_of_nil].
        case_match; [|by intros ?%elem_of_nil].
        by intros ->%list_elem_of_singleton.
      * unfold isCandidate in H.
        destruct (StrictPattern cfg) eqn:Hs; [|by apply elem_of_nil in H].
        revert H. case_match; [|by intros ?%elem_of_nil].
        by intros ->%list_elem_of_singleton.
  - destruct (entryErrors_not_file Join cfg entry Hfile) as [_ [-> | [err ->]]].
    + by intros ?%elem_of_nil.
    + by intros ->%list_elem_of_singleton.
Qed.

(** Every violation of a run belongs to a rule whose option is set: an
    extension mismatch needs enforcement and a filter, an unmatched file
    strict-pattern, a digits mismatch a positive width, a missing up or
    down migration require-down, a name mismatch strict-name-match, and a
    missing version no-gaps.  With the default options a run can only
    report duplicates, version parse errors and links that cannot be
    examined. *)
Theorem violations_need_their_option
    (Join : string → string → string) (cfg : Config)
    (dir : Directory) (errs : list Violation) (x : Violation) :
  Lint Join cfg dir = inr errs → x ∈ errs → ruleEnabled cfg x = true.
Proof.
  destruct dir as [| | | |entries]; try discriminate.
  intros ->%Lint_Listing. rewrite lintEntries_parts, !elem_of_app.
  intros [(e & Hx & _)%list_elem_of_bind | [H | H]].
  - by apply entryErrors_enabled in Hx.
  - unfold perVersionErrors in H.
    apply list_elem_of_bind in H as (v & Hx & _).
    by apply groupErrors_enabled in Hx.
  - unfold gapRuleErrors in H. destruct (NoGaps cfg) eqn:Hg;
      [|by apply elem_of_nil in H].
    apply gapErrors_rule in H. destruct x; try done.
Qed.

Lemma violations_need_their_option_witness :
  ruleEnabled
    {| Path := "m"; Ext := ""; EnforceExt := false; NoGaps := true;
       Digits := 0; RequireDown := false; StrictNameMatch := false;
       StrictPattern := false |}
    (MissingVersion 2 1 3) = true.
Proof.
  apply (violations_need_their_option slashJoin _
           (Listing [regularFile "1_a.up.sql"; regularFile "3_a.up.sql"])
           [MissingVersion 2 1 3]).
  - by vm_compute.
  - apply list_elem_of_here.
Defined.

(** ** The digit-width option *)

Section DigitWidth.

Context (Join : string → string → string).

Lemma recordOf_withoutDigits (cfg : Config) (entry : DirEntry) :
  recordOf Join (withoutDigits cfg) entry = recordOf Join cfg entry.
Proof.
  destruct (isFile entry) eqn:Hfile.
  - by rewrite !(recordOf_file Join _ entry Hfile).
  - destruct (entryErrors_not_file Join cfg entry Hfile) as [-> _].
    by destruct (entryErrors_not_file Join (withoutDigits cfg) entry Hfile)
      as [-> _].
Qed.

Lemma entryErrors_withoutDigits (cfg : Config) (entry : DirEntry) :
  filter (λ x, isDigitsMismatch x = false) (entryErrors Join cfg entry)
  = entryErrors Join (withoutDigits cfg) entry.
Proof.
  destruct (isFile entry) eqn:Hfile.
  - rewrite !(entryErrors_file Join _ entry Hfile). cbv zeta.
    change (Ext (withoutDigits cfg)) with (Ext cfg).
    change (EnforceExt (withoutDigits cfg)) with (EnforceExt cfg).
    change (StrictPattern (withoutDigits cfg)) with (StrictPattern cfg).
    change (Path (withoutDigits cfg)) with (Path cfg).
    change (Digits (withoutDigits cfg)) with 0.
    change (isCandidate (Name entry) (finalExtForMatch (Name entry))
              (extPartOpt (Name entry)) (isMigrationLike (Name entry))
              (hasDirection (Name entry)) (withoutDigits cfg))
      with (isCandidate (Name entry) (finalExtForMatch (Name entry))
              (extPartOpt (Name entry)) (isMigrationLike (Name entry))
              (hasDirection (Name entry)) cfg).
    rewrite filter_app. f_equal.
    + by case_match.
    + cbn [Z.ltb Z.compare andb].
      repeat case_match; done.
  - unfold entryErrors, lintEntry, isFile in *.
    by destruct (Type_ entry) as [| |[err|[|]]|].
Qed.

End DigitWidth.

(** A digits mismatch never stops a file from being grouped: the result
    of a run without its "digits mismatch" violations is the result of the
    same run with the width check turned off. *)
Theorem digits_option_only_adds_its_violations
    (Join : string → string → string) (cfg : Config)
    (entries : list DirEntry) :
  filter (λ x, isDigitsMismatch x = false) (lintEntries Join cfg entries)
  = lintEntries Join (withoutDigits cfg) entries.
Proof.
  rewrite !lintEntries_parts, !filter_app.
  assert (records Join (withoutDigits cfg) entries = records Join cfg entries)
    as ->.
  { induction entries as [|e entries IH]; [done|].
    by rewrite !records_cons, recordOf_withoutDigits, IH. }
  f_equal; [|f_equal].
  - induction entries as [|e entries IH]; [done|].
    by rewrite !bind_cons, filter_app, entryErrors_withoutDigits, IH.
  - apply filter_all. intros x Hx%perVersionErrors_rule. by destruct x.
  - apply filter_all. intros x Hx%gapRuleErrors_rule. by destruct x.
Qed.

(** ** The order of the listing *)

Lemma distinctVersions_Permutation (recs recs' : list Migration) :
  recs ≡ₚ recs' → distinctVersions recs = distinctVersions recs'.
Proof.
  intros Hperm. unfold distinctVersions.
  apply (Sorted_unique Z.le); try apply Sorted_merge_sort; try apply _.
  rewrite !merge_sort_Permutation.
  apply NoDup_Permutation; try apply NoDup_remove_dups.
  intros v. rewrite !elem_of_remove_dups. by rewrite Hperm.
Qed.

Lemma records_Permutation (Join : string → string → string) (cfg : Config)
    (entries entries' : list DirEntry) :
  entries ≡ₚ entries' → records Join cfg entries ≡ₚ records Join cfg entries'.
Proof.
  induction 1 as [|e l l' _ IH|e1 e2 l|l1 l2 l3 _ IH1 _ IH2];
    rewrite ?records_cons.
  - done.
  - by rewrite IH.
  - destruct (recordOf Join cfg e1), (recordOf Join cfg e2); try done.
    apply Permutation_swap.
  - by etrans.
Qed.

(** The gap violations of a run do not depend on the order in which the
    directory lists its entries, and neither do the versions that the run
    groups. *)
Theorem gap_violations_ignore_listing_order
    (Join : string → string → string) (cfg : Config)
    (entries entries' : list DirEntry) :
  entries ≡ₚ entries' →
  filter (λ x, ruleOf x = GapRule) (lintEntries Join cfg entries)
  = filter (λ x, ruleOf x = GapRule) (lintEntries Join cfg entries')
  ∧ distinctVersions (records Join cfg entries)
    = distinctVersions (records Join cfg entries').
Proof.
  intros Hperm.
  pose proof (distinctVersions_Permutation _ _
                (records_Permutation Join cfg _ _ Hperm)) as Heq.
  split; [|done].
  rewrite !filter_lintEntries_GapRule. unfold gapRuleErrors. by rewrite Heq.
Qed.

Lemma gap_violations_ignore_listing_order_witness :
  filter (λ x, ruleOf x = GapRule)
    (lintEntries slashJoin
       {| Path := "m"; Ext := ""; EnforceExt := false; NoGaps := true;
          Digits := 0; RequireDown := false; StrictNameMatch := false;
          StrictPattern := false |}
       [regularFile "5_b.up.sql"; regularFile "1_a.up.sql"])
  = [MissingVersions 2 4 1 5].
Proof.
  rewrite (proj1 (gap_violations_ignore_listing_order slashJoin _
                    [regularFile "5_b.up.sql"; regularFile "1_a.up.sql"]
                    [regularFile "1_a.up.sql"; regularFile "5_b.up.sql"]
                    (Permutation_swap _ _ _))).
  by vm_compute.
Defined.

(** ** A direction token on a file that is not canonical *)

Lemma extMatches_no_extension (expected : string) :
  expected ≠ "" → extMatches expected "" "" = false.
Proof.
  intros Hne. unfold extMatches. rewrite (isEmpty_false _ Hne).
  destruct (Str.containsByte "." expected); apply String.eqb_neq; congruence.
Qed.

(** A file that has a direction token and is not canonical has nothing
    after the direction, or a lone dot: its extension part and its final
    extension for matching are both empty, so it satisfies no configured
    extension filter. *)
Theorem direction_token_without_extension (name : string) :
  hasDirection name = true → matches name = None →
  extPartOpt name = "" ∧ finalExtForMatch name = ""
  ∧ ∀ expected, expected ≠ "" →
      extMatches expected (finalExtForMatch name) (extPartOpt name) = false.
Proof.
  intros Hdir Hnone.
  assert (extPartOpt name = "") as Hopt.
  { unfold hasDirection, extPartOpt, prefixMatch, FindStringSubmatch in *.
    destruct (searchFrom name migrationPrefixRe name) as [caps|] eqn:Hs;
      [|done].
    apply searchFrom_migrationPrefixRe in Hs
      as (v & n & d & x & -> & Hsplit & _).
    destruct Hsplit as (Hs & Hv & Hdig & Hn & Hnl & Hd & [-> | (e & -> & Hnle)]);
      [done|].
    destruct e as [|a e]; [done|]. exfalso.
    assert (canonicalSplit name v n d (String a e)) as Hcanon
      by (by split_and!).
    apply searchFrom_migratePattern_complete in Hcanon as [caps Hcaps].
    unfold matches, FindStringSubmatch in Hnone. by rewrite Hcaps in Hnone. }
  assert (finalExtForMatch name = "") as Hfin.
  { unfold finalExtForMatch. by rewrite Hdir, Hopt. }
  split_and!; try done.
  intros expected Hne. rewrite Hopt, Hfin. by apply extMatches_no_extension.
Qed.

Lemma direction_token_without_extension_witness :
  extPartOpt "000001_add_user.up" = ""
  ∧ finalExtForMatch "000001_add_user.up" = ""
  ∧ extMatches "sql" (finalExtForMatch "000001_a.up.")
      (extPartOpt "000001_a.up.") = false.
Proof.
  destruct (direction_token_without_extension "000001_add_user.up"
              eq_refl eq_refl) as (H1 & H2 & _).
  destruct (direction_token_without_extension "000001_a.up."
              eq_refl eq_refl) as (_ & _ & H3).
  split_and!; [exact H1 | exact H2 | apply H3; discriminate].
Defined.

(** ** The loose pattern *)

Lemma canonicalSplit_isMigrationLike (s v n d e : string) :
  canonicalSplit s v n d e → isMigrationLike s = true.
Proof.
  intros (-> & Hv & Hdig & Hn & Hnl & Hd & He & Hnle).
  unfold isMigrationLike, MatchString. rewrite migrationLikeRe_unfold.
  rewrite searchFrom_anchored.
  set (s := v +:+ "_" +:+ n +:+ "." +:+ d +:+ "." +:+ e).
  set (caps := noCaps _).
  assert (("", <[1%nat := Some d]> caps)
          ∈ exec s (Concat BeginText (Concat digits1 (Concat (Literal "_") likeRest)))
              (s, caps)) as Hin.
  { rewrite exec_BeginText_here. apply elem_of_exec_Concat.
    exists ("_" +:+ n +:+ "." +:+ d +:+ "." +:+ e, caps). split.
    2:{ apply elem_of_exec_digits1. by exists v. }
    apply elem_of_exec_Concat.
    exists (n +:+ "." +:+ d +:+ "." +:+ e, caps).
    split; [|by apply elem_of_exec_Literal].
    unfold likeRest. apply elem_of_exec_Concat.
    exists ("." +:+ d +:+ "." +:+ e, caps). split.
    2:{ apply elem_of_exec_Plus_notNL. by exists n. }
    apply elem_of_exec_Concat. exists (d +:+ "." +:+ e, caps).
    split; [|by apply elem_of_exec_Literal].
    apply elem_of_exec_Concat. exists ("." +:+ e, <[1%nat := Some d]> caps).
    split.
    2:{ apply elem_of_exec_Capture. exists ("." +:+ e, caps). cbn [fst snd].
        rewrite (str_take_app d ("." +:+ e)). split; [done|].
        apply elem_of_exec_upOrDown. by exists d. }
    apply elem_of_exec_Concat. exists (e, <[1%nat := Some d]> caps).
    split; [|by apply elem_of_exec_Literal].
    apply elem_of_exec_Plus_notNL. exists e. by rewrite str_app_nil_r. }
  destruct (exec _ _ _) as [|t' l]; [by apply elem_of_nil in Hin|]. done.
Qed.

(** A canonical filename is also migration-like and has a direction
    token; and the loose pattern, like the direction-token one, only
    matches a filename that begins with a digit run and an underscore. *)
Theorem canonical_is_migration_like_with_direction (name : string) :
  (is_Some (matches name) →
   isMigrationLike name = true ∧ hasDirection name = true)
  ∧ (isMigrationLike name = true → startsWithVersion name).
Proof.
  split; [|apply isMigrationLike_leading_digits].
  intros [m Hm].
  pose proof Hm as (v & n & d & e & -> & Hsplit & _)
    %FindStringSubmatch_migratePattern.
  split.
  - by eapply canonicalSplit_isMigrationLike.
  - by destruct (extPartOpt_canonical _ _ _ _ _ Hm).
Qed.

Lemma canonical_is_migration_like_with_direction_witness :
  isMigrationLike "000001_create_users.up.sql" = true
  ∧ hasDirection "000001_create_users.up.sql" = true.
Proof.
  apply (proj1 (canonical_is_migration_like_with_direction
                  "000001_create_users.up.sql")).
  by eexists.
Defined.

(** ** The unmatched-file rule *)

Lemma startsWithVersion_first_digit (name : string) :
  startsWithVersion name →
  ∃ a t, name = String a t ∧ strconv.isDigit a = true.
Proof.
  intros (v & rest & -> & Hv & Hdig).
  destruct v as [|a v]; [done|]. simpl in Hdig.
  apply andb_prop in Hdig as [Ha _]. by exists a, (v +:+ "_" +:+ rest).
Qed.

(** A canonical file is never reported as unmatched, and no file is
    without strict-pattern.  With strict-pattern and no extension filter,
    the files reported as unmatched are exactly those that are not
    canonical and whose first byte is a digit: a migration-like name or a
    direction token adds nothing, since both need a leading digit. *)
Theorem unmatched_rule_without_filter
    (Join : string → string → string) (cfg : Config) (entry : DirEntry) :
  isFile entry = true →
  (∀ path, UnmatchedFile path ∈ entryErrors Join cfg entry →
           StrictPattern cfg = true ∧ matches (Name entry) = None
           ∧ path = Join (Path cfg) (Name entry))
  ∧ (Ext cfg = "" →
     (UnmatchedFile (Join (Path cfg) (Name entry)) ∈ entryErrors Join cfg entry ↔
      StrictPattern cfg = true ∧ matches (Name entry) = None
      ∧ ∃ a t, Name entry = String a t ∧ strconv.isDigit a = true)).
Proof.
  intros Hfile. rewrite (entryErrors_file Join cfg entry Hfile). cbv zeta.
  split.
  - intros path. rewrite elem_of_app. intros [H | H].
    + revert H. case_match; other_kind.
    + destruct (matches (Name entry)) as [m|].
      * revert H. repeat case_match; other_kind.
      * unfold isCandidate in H.
        destruct (StrictPattern cfg); [|by apply elem_of_nil in H].
        revert H. case_match; [|by intros ?%elem_of_nil].
        by intros [= ->]%list_elem_of_singleton.
  - intros Hext. rewrite Hext. cbn [Str.isEmpty negb andb app].
    destruct (matches (Name entry)) as [m|].
    + split; [|by intros (_ & ? & _)].
      repeat case_match; other_kind.
    + unfold isCandidate. rewrite Hext. cbn [Str.isEmpty negb].
      destruct (StrictPattern cfg); cbn [negb].
      2:{ split; [by intros ?%elem_of_nil | by intros (? & _)]. }
      assert (isMigrationLike (Name entry) || hasDirection (Name entry) = true →
              ∃ a t, Name entry = String a t ∧ strconv.isDigit a = true)
        as Hlead.
      { intros [H | H]%orb_prop; apply startsWithVersion_first_digit.
        - by apply isMigrationLike_leading_digits.
        - by apply hasDirection_leading_digits. }
      destruct (Name entry) as [|a t] eqn:Hname.
      * destruct (isMigrationLike "" || hasDirection "") eqn:Hld.
        { destruct (Hlead eq_refl) as (? & ? & ? & _). done. }
        split; [by intros ?%elem_of_nil | by intros (_ & _ & ? & ? & ? & _)].
      * fold (inClass "0" "9" a). fold (strconv.isDigit a).
        destruct (strconv.isDigit a) eqn:Ha.
        { split; [|intros _; apply list_elem_of_here].
          intros _. split_and!; try done. by exists a, t. }
        destruct (isMigrationLike (String a t) || hasDirection (String a t))
          eqn:Hld.
        { destruct (Hlead eq_refl) as (a' & t' & [= <- <-] & Ha'). congruence. }
        split; [by intros ?%elem_of_nil|].
        intros (_ & _ & a' & t' & [= <- <-] & Ha'). congruence.
Qed.

Lemma unmatched_rule_without_filter_witness :
  UnmatchedFile "m/123notes.sql"
  ∈ entryErrors slashJoin
      {| Path := "m"; Ext := ""; EnforceExt := false; NoGaps := false;
         Digits := 0; RequireDown := false; StrictNameMatch := false;
         StrictPattern := true |}
      (regularFile "123notes.sql").
Proof.
  destruct (unmatched_rule_without_filter slashJoin
    {| Path := "m"; Ext := ""; EnforceExt := false; NoGaps := false;
       Digits := 0; RequireDown := false; StrictNameMatch := false;
       StrictPattern := true |}
    (regularFile "123notes.sql") eq_refl) as [_ H].
  apply (H eq_refl). split_and!; try done. by exists "1"%char, "23notes.sql".
Defined.

(** ** The command *)

(** A configuration that [parseFlags] accepts has a path, a digit width
    that is not negative and, when enforcement is on, an extension filter;
    it is the flag values with one leading dot removed from the filter. *)
Theorem parseFlags_accepted_config (flags cfg : Config) :
  parseFlags flags = inr cfg →
  Path cfg ≠ "" ∧ 0 ≤ Digits cfg
  ∧ (EnforceExt cfg = true → Ext cfg ≠ "")
  ∧ cfg = withExt flags (trimDot (Ext flags)).
Proof.
  unfold parseFlags. cbv zeta. cbn [Path Ext EnforceExt Digits].
  assert ((if negb (Str.isEmpty (Ext flags)) then trimDot (Ext flags)
           else Ext flags) = trimDot (Ext flags)) as ->
    by (by destruct (Ext flags)).
  destruct (Str.isEmpty (Path flags)) eqn:Hpath; [done|].
  destruct (EnforceExt flags && Str.isEmpty (trimDot (Ext flags))) eqn:Henf;
    [done|].
  destruct (Z.ltb_spec (Digits flags) 0) as [? | Hd]; [done|].
  intros [= <-]. cbn [Path Ext EnforceExt Digits]. split_and!; try done.
  - by destruct (Path flags).
  - intros Hon. rewrite Hon in Henf. by destruct (trimDot (Ext flags)).
Qed.

Lemma parseFlags_accepted_config_witness :
  Ext (withExt (defaultConfig "m") "sql") = "sql"
  ∧ Path (withExt (defaultConfig "m") "sql") ≠ "".
Proof.
  destruct (parseFlags_accepted_config (withExt (defaultConfig "m") ".sql")
              (withExt (defaultConfig "m") "sql") eq_refl) as (H & _).
  split; [reflexivity | exact H].
Defined.

(** A leading dot of the extension filter makes no difference: [.sql] is
    read as [sql]. *)
Theorem parseFlags_leading_dot (flags : Config) (ext : string) :
  trimDot ext = ext →
  parseFlags (withExt flags ("." +:+ ext)) = parseFlags (withExt flags ext).
Proof.
  intros Hext. unfold parseFlags. cbv zeta.
  cbn [withExt Path Ext EnforceExt NoGaps Digits RequireDown StrictNameMatch
       StrictPattern].
  change (trimDot ("." +:+ ext)) with ext. cbn [Str.isEmpty negb].
  assert ((if negb (Str.isEmpty ext) then trimDot ext else ext) = ext) as ->
    by (rewrite Hext; by destruct (negb _)).
  done.
Qed.

Lemma parseFlags_leading_dot_witness :
  parseFlags (withExt (defaultConfig "m") ".sql")
  = parseFlags (withExt (defaultConfig "m") "sql").
Proof. apply (parseFlags_leading_dot (defaultConfig "m") "sql"). reflexivity. Defined.

(** The command ends with status 0 exactly when help is requested, or the
    command line parses, the flags are accepted, the directory can be
    listed and the run finds no violation; with status 2 exactly when the
    command line does not parse or the flags are refused; and with status 1
    in every other case.  When help is requested or the status is 2, the
    outcome is the same whatever the directory holds: the command line is
    dealt with before the directory is touched. *)
Theorem main_exit_status
    (Join : string → string → string) (args : CommandLine) (dir : Directory) :
  (exitCode (main Join args dir) = 0 ↔
   args = HelpRequested
   ∨ ∃ flags cfg entries,
       args = Flags flags ∧ parseFlags flags = inr cfg ∧ dir = Listing entries
       ∧ lintEntries Join cfg entries = [])
  ∧ (exitCode (main Join args dir) = 2 ↔
     args = BadArguments
     ∨ ∃ flags line, args = Flags flags ∧ parseFlags flags = inl line)
  ∧ (exitCode (main Join args dir) = 0 ∨ exitCode (main Join args dir) = 1
     ∨ exitCode (main Join args dir) = 2)
  ∧ (∀ flags line dir',
       args = Flags flags → parseFlags flags = inl line →
       main Join args dir' = UsageError line)
  ∧ (∀ dir',
       args = HelpRequested ∨ exitCode (main Join args dir) = 2 →
       main Join args dir' = main Join args dir).
Proof.
  destruct args as [| |flags]; cbn [main exitCode].
  - split_and!; try done.
    + split; [by left|done].
    + split; [done|]. intros [? | (? & ? & ? & _)]; done.
    + by left.
  - split_and!; try done.
    + split; [done|]. intros [? | (? & ? & ? & ? & _)]; done.
    + split; [by left|done].
    + by right; right.
  - destruct (parseFlags flags) as [line|cfg] eqn:Hflags; cbn [exitCode].
    + split_and!; try done.
      * split; [done|]. intros [? | (? & ? & ? & [= <-] & ? & _)]; [done|].
        congruence.
      * split; [|done]. intros _. right. by exists flags, line.
      * by right; right.
      * intros flags' line' dir' [= <-] Hline. congruence.
    + assert (¬ ∃ flags' line, Flags flags = Flags flags'
                                ∧ parseFlags flags' = inl line) as Hrefused.
      { intros (flags' & line & [= <-] & Hline). congruence. }
      destruct (Lint Join cfg dir) as [err|lintErrors] eqn:Hlint.
      * cbn [exitCode]. split_and!; try done.
        -- split; [done|].
           intros [? | (flags' & cfg' & entries & [= <-] & Hcfg & -> & _)];
             [done|].
           replace cfg' with cfg in * by congruence. done.
        -- split; [done|]. intros [? | H]; [done|]. by destruct Hrefused.
        -- by right; left.
        -- intros flags' line dir' [= <-] Hline. congruence.
        -- intros dir' [? | ?]; done.
      * destruct dir as [| | | |entries]; try done.
        cbn [Lint] in Hlint. injection Hlint as <-.
        case_bool_decide as Hlen; cbn [exitCode]; split_and!; try done.
        -- split; [done|].
           intros [? | (flags' & cfg' & entries' & [= <-] & Hcfg & [= <-] & Hnil)];
             [done|].
           replace cfg' with cfg in * by congruence.
           rewrite Hnil in Hlen. simpl in Hlen. lia.
        -- split; [done|]. intros [? | H]; [done|]. by destruct Hrefused.
        -- by right; left.
        -- intros flags' line dir' [= <-] Hline. congruence.
        -- intros dir' [? | ?]; done.
        -- split; [|done]. intros _. right. exists flags, cfg, entries.
           split_and!; try done.
           destruct (lintEntries Join cfg entries); [done|simpl in Hlen; lia].
        -- split; [done|]. intros [? | H]; [done|]. by destruct Hrefused.
        -- by left.
        -- intros flags' line dir' [= <-] Hline. congruence.
        -- intros dir' [? | ?]; done.
Qed.

(** ** The duplicate rule, both ways *)

Lemma elem_of_groupErrors_DuplicateUp (cfg : Config) (v v' : Z)
    (g : VersionGroup) (paths : string) :
  DuplicateUp v paths ∈ groupErrors cfg v' g ↔
  v = v' ∧ (2 ≤ length (Up g))%nat ∧ paths = joinPaths (Up g).
Proof.
  unfold groupErrors. rewrite !elem_of_app. split.
  - intros [H | [H | [H | H]]].
    + case_bool_decide; [|by apply elem_of_nil in H].
      apply list_elem_of_singleton in H as [= -> ->]. split_and!; [done|lia|done].
    + revert H. repeat case_match; other_kind.
    + destruct (RequireDown cfg); [|by apply elem_of_nil in H].
      apply elem_of_app in H as [H | H]; revert H;
        repeat case_match; other_kind.
    + revert H. repeat case_match; other_kind.
  - intros (-> & Hlen & ->). left.
    rewrite bool_decide_eq_true_2 by lia. apply list_elem_of_here.
Qed.

Lemma elem_of_groupErrors_DuplicateDown (cfg : Config) (v v' : Z)
    (g : VersionGroup) (paths : string) :
  DuplicateDown v paths ∈ groupErrors cfg v' g ↔
  v = v' ∧ (2 ≤ length (Down g))%nat ∧ paths = joinPaths (Down g).
Proof.
  unfold groupErrors. rewrite !elem_of_app. split.
  - intros [H | [H | [H | H]]].
    + revert H. repeat case_match; other_kind.
    + case_bool_decide; [|by apply elem_of_nil in H].
      apply list_elem_of_singleton in H as [= -> ->]. split_and!; [done|lia|done].
    + destruct (RequireDown cfg); [|by apply elem_of_nil in H].
      apply elem_of_app in H as [H | H]; revert H;
        repeat case_match; other_kind.
    + revert H. repeat case_match; other_kind.
  - intros (-> & Hlen & ->). right. left.
    rewrite bool_decide_eq_true_2 by lia. apply list_elem_of_here.
Qed.

(** Whatever the options, a run reports duplicate up migrations for a
    version exactly when the version has two or more up-records, and
    likewise for down-records: a version with a single up-record and a
    single down-record is never reported as a duplicate. *)
Theorem duplicate_rule_iff
    (Join : string → string → string) (cfg : Config)
    (entries : list DirEntry) (errs : list Violation) (v : Z) :
  Lint Join cfg (Listing entries) = inr errs →
  let recs := records Join cfg entries in
  ((∃ paths, DuplicateUp v paths ∈ errs) ↔ (2 ≤ length (Up (groupOf recs v)))%nat)
  ∧ ((∃ paths, DuplicateDown v paths ∈ errs) ↔
     (2 ≤ length (Down (groupOf recs v)))%nat).
Proof.
  intros ->%Lint_Listing recs. split.
  - setoid_rewrite elem_of_lintEntries_PerVersion; [|done]. fold recs.
    setoid_rewrite elem_of_groupErrors_DuplicateUp. split.
    + intros (paths & v' & _ & <- & ? & _). done.
    + intros Hlen. eexists _, v. split; [|done].
      apply groupOf_nonempty_version. left.
      destruct (Up (groupOf recs v)); [simpl in Hlen; lia|done].
  - setoid_rewrite elem_of_lintEntries_PerVersion; [|done]. fold recs.
    setoid_rewrite elem_of_groupErrors_DuplicateDown. split.
    + intros (paths & v' & _ & <- & ? & _). done.
    + intros Hlen. eexists _, v. split; [|done].
      apply groupOf_nonempty_version. right.
      destruct (Down (groupOf recs v)); [simpl in Hlen; lia|done].
Qed.

Lemma duplicate_rule_iff_witness :
  ∃ paths,
    DuplicateUp 1 paths
    ∈ lintEntries slashJoin (defaultConfig "m")
        [regularFile "000001_a.up.sql"; regularFile "000001_b.up.sql"].
Proof.
  destruct (duplicate_rule_iff slashJoin (defaultConfig "m")
    [regularFile "000001_a.up.sql"; regularFile "000001_b.up.sql"] _ 1 eq_refl)
    as [H _].
  apply H. by vm_compute.
Defined.

(** ** The loop body never takes anything back *)

Lemma addMigration_grows (st : State) (m : Migration) :
  lintErrors (addMigration st m) = lintErrors st
  ∧ versionKeys st `prefix_of` versionKeys (addMigration st m)
  ∧ ∀ v g, versions st !! v = Some g →
           ∃ g', versions (addMigration st m) !! v = Some g'
                 ∧ Up g `prefix_of` Up g' ∧ Down g `prefix_of` Down g'.
Proof.
  unfold addMigration. cbn [lintErrors versionKeys versions]. split_and!.
  - done.
  - destruct (versions st !! Version m); [done|]. by apply prefix_app_r.
  - intros v g Hg. destruct (decide (v = Version m)) as [-> | Hne].
    + rewrite lookup_insert_eq, Hg. cbn [default].
      eexists. split; [done|].
      destruct (String.eqb (Direction m) "up"); cbn [Up Down];
        split; try done; by apply prefix_app_r.
    + rewrite lookup_insert_ne by done. eauto.
Qed.

(** An iteration of the loop only appends: the violations reported so far
    stay a prefix of the reported ones, the versions seen so far a prefix
    of the versions seen, and each group keeps its records in place, with
    at most one record appended; what the iteration reports does not
    depend on what the earlier ones found. *)
Theorem loop_body_only_appends
    (Join : string → string → string) (cfg : Config) (st : State)
    (entry : DirEntry) :
  let st' := lintEntry Join cfg st entry in
  lintErrors st' = lintErrors st ++ entryErrors Join cfg entry
  ∧ versionKeys st `prefix_of` versionKeys st'
  ∧ ∀ v g, versions st !! v = Some g →
           ∃ g', versions st' !! v = Some g'
                 ∧ Up g `prefix_of` Up g' ∧ Down g `prefix_of` Down g'.
Proof.
  cbv zeta. rewrite lintEntry_decompose. unfold applyEntry.
  destruct (recordOf Join cfg entry) as [m|].
  - destruct (addMigration_grows (reports st (entryErrors Join cfg entry)) m)
      as (-> & Hkeys & Hgroups). done.
  - split_and!; try done. eauto.
Qed.
